(** * Text tools of node-DeepResearch: footnote reconciliation and fragment merging

    A shallow embedding of [src/utils/text-tools.ts].  The two functions
    studied are [buildMdFromAnswer] (the footnote reconciler) and
    [smartMergeStrings] (the fragment merger).

    A JavaScript string is a finite sequence of UTF-16 code units; it is
    modelled as a list of [N].  The regular expressions of the source are
    modelled by matchers that return the length of the match found at the
    head of the input, and the global [replace] and the [exec] loop by a
    left-to-right scan over those matchers. *)

From Stdlib Require Import Ascii String.
From Stdlib Require Import List NArith ZArith Bool Lia Permutation.
From Stdlib Require Decimal DecimalNat.
Import ListNotations.

(** ** JavaScript strings *)

Definition char16 := N.
Definition jsstring := list char16.

(** An ASCII literal as a JavaScript string. *)
Definition lit (s : String.string) : jsstring :=
  map N_of_ascii (String.list_ascii_of_string s).

Fixpoint str_eqb (a b : jsstring) : bool :=
  match a, b with
  | [], [] => true
  | x :: a', y :: b' => N.eqb x y && str_eqb a' b'
  | _, _ => false
  end.

Definition is_empty (s : jsstring) : bool :=
  match s with [] => true | _ => false end.

(** [String.prototype.slice(start, end)]; [None] is the omitted [end]. *)
Definition slice (s : jsstring) (start : Z) (end_ : option Z) : jsstring :=
  let len := Z.of_nat (length s) in
  let from := if (start <? 0)%Z then Z.max (len + start) 0 else Z.min start len in
  let e := match end_ with None => len | Some e => e end in
  let to := if (e <? 0)%Z then Z.max (len + e) 0 else Z.min e len in
  firstn (Z.to_nat (Z.max (to - from) 0)) (skipn (Z.to_nat from) s).

(** [s.startsWith(p)] *)
Fixpoint startsWith (s p : jsstring) {struct p} : bool :=
  match p, s with
  | [], _ => true
  | x :: p', y :: s' => N.eqb x y && startsWith s' p'
  | _ :: _, [] => false
  end.

(** [s.includes(t)] *)
Fixpoint includes (s t : jsstring) : bool :=
  startsWith s t ||
  match s with
  | [] => false
  | _ :: s' => includes s' t
  end.

(** ** The fragment merger *)

Module Merge.

(** The [for] loop of [smartMergeStrings]: candidates from [overlapLength]
    downward, the first match wins, 0 when none matches. *)
Fixpoint bestOverlap (str1 str2 : jsstring) (overlapLength : nat) : nat :=
  match overlapLength with
  | O => O
  | S k =>
      let endOfStr1 :=
        slice str1 (Z.of_nat (length str1) - Z.of_nat overlapLength)%Z None in
      let startOfStr2 := slice str2 0 (Some (Z.of_nat overlapLength)) in
      if str_eqb endOfStr1 startOfStr2 then overlapLength
      else bestOverlap str1 str2 k
  end.

Definition smartMergeStrings (str1 str2 : jsstring) : jsstring :=
  if is_empty str1 then str2
  else if is_empty str2 then str1
  else if includes str1 str2 then str1
  else if includes str2 str1 then str2
  else
    let maxOverlap := Nat.min (length str1) (length str2) in
    let bestOverlapLength := bestOverlap str1 str2 maxOverlap in
    if (0 <? bestOverlapLength)%nat then
      slice str1 0 (Some (Z.of_nat (length str1) - Z.of_nat bestOverlapLength)%Z)
        ++ str2
    else str1 ++ str2.

(** The overlap relation in the words of the specification: the last [L]
    characters of [first] equal the first [L] characters of [second]. *)
Definition overlap (first second : jsstring) (L : nat) : Prop :=
  1 <= L <= Nat.min (length first) (length second) /\
  skipn (length first - L) first = firstn L second.

End Merge.

(** ** Character classes and regular expressions *)

Definition LBRACKET : char16 := 91%N.
Definition RBRACKET : char16 := 93%N.
Definition CARET : char16 := 94%N.
Definition COMMA : char16 := 44%N.
Definition SPACE : char16 := 32%N.
Definition NL : char16 := 10%N.
(** U+205C, the glyph that opens an appended marker line. *)
Definition DOTTED_CROSS : char16 := 0x205C%N.

(** [\d] *)
Definition is_digit (c : char16) : bool := ((48 <=? c) && (c <=? 57))%N.

(** [\s], also the characters removed by [trim]: the WhiteSpace and
    LineTerminator code points of ECMAScript. *)
Definition is_space (c : char16) : bool :=
  (((9 <=? c) && (c <=? 13)) || (c =? 32) || (c =? 0xA0) || (c =? 0x1680)
   || ((0x2000 <=? c) && (c <=? 0x200A)) || (c =? 0x2028) || (c =? 0x2029)
   || (c =? 0x202F) || (c =? 0x205F) || (c =? 0x3000) || (c =? 0xFEFF))%N.

Fixpoint takeWhile (p : char16 -> bool) (s : jsstring) : jsstring :=
  match s with
  | c :: r => if p c then c :: takeWhile p r else []
  | [] => []
  end.

(** A regular expression tried at the head of its input: the length of the
    match and the text of capture group 1.  None of the expressions below
    matches the empty string. *)
Definition regex := jsstring -> option (nat * jsstring).

(** [/\[\^(\d+)]/] *)
Definition footnoteRegex : regex := fun s =>
  match s with
  | c1 :: c2 :: r =>
      let digits := takeWhile is_digit r in
      if (c1 =? LBRACKET)%N && (c2 =? CARET)%N && negb (is_empty digits)
         && startsWith (skipn (length digits) r) [RBRACKET]
      then Some (2 + length digits + 1, digits)
      else None
  | _ => None
  end.

(** One round of the group [(?:,\s*\^(\d+))] at the head of [s]: its length. *)
Definition groupItem (s : jsstring) : option nat :=
  match s with
  | c :: r =>
      let ws := takeWhile is_space r in
      match skipn (length ws) r with
      | c2 :: r2 =>
          let digits := takeWhile is_digit r2 in
          if (c =? COMMA)%N && (c2 =? CARET)%N && negb (is_empty digits)
          then Some (1 + length ws + 1 + length digits)
          else None
      | [] => None
      end
  | [] => None
  end.

(** The greedy [(...)+]: the total length of the longest run of rounds.
    A round is at least three characters long, so that [length s] rounds of
    fuel are never used up. *)
Fixpoint groupItems (fuel : nat) (s : jsstring) : nat :=
  match fuel with
  | O => O
  | S fuel' =>
      match groupItem s with
      | Some n => n + groupItems fuel' (skipn n s)
      | None => O
      end
  end.

(** [/\[\^(\d+)(?:,\s*\^(\d+))+]/] *)
Definition groupedFootnoteRegex : regex := fun s =>
  match s with
  | c1 :: c2 :: r =>
      let digits := takeWhile is_digit r in
      let r' := skipn (length digits) r in
      let items := groupItems (length r') r' in
      if (c1 =? LBRACKET)%N && (c2 =? CARET)%N && negb (is_empty digits)
         && (0 <? items)%nat && startsWith (skipn items r') [RBRACKET]
      then Some (2 + length digits + items + 1, digits)
      else None
  | _ => None
  end.

(** [/\d+/] *)
Definition digitsRegex : regex := fun s =>
  match takeWhile is_digit s with
  | [] => None
  | d => Some (length d, [])
  end.

(** [/\s+/] *)
Definition spacesRegex : regex := fun s =>
  match takeWhile is_space s with
  | [] => None
  | w => Some (length w, [])
  end.

(** The text cut by a global regular expression: characters outside any
    match, and matches with their capture. *)
Inductive piece :=
| Lit (c : char16)
| Hit (text group1 : jsstring).

(** The scan of a global regular expression: leftmost match first, then on
    from the end of that match; [skip] counts the characters of the current
    match still to pass. *)
Fixpoint scan_from (re : regex) (skip : nat) (s : jsstring) : list piece :=
  match s with
  | [] => []
  | c :: s' =>
      match skip with
      | S k => scan_from re k s'
      | O =>
          match re s with
          | Some (n, g) => Hit (firstn n s) g :: scan_from re (pred n) s'
          | None => Lit c :: scan_from re 0 s'
          end
      end
  end.

Definition scan (re : regex) (s : jsstring) : list piece := scan_from re 0 s.

(** The result of [replace] with a callback; [st] is the state the callback
    closes over. *)
Fixpoint render {St : Type} (f : St -> jsstring -> St * jsstring) (st : St)
    (ps : list piece) : jsstring :=
  match ps with
  | [] => []
  | Lit c :: ps' => c :: render f st ps'
  | Hit m _ :: ps' => let (st', r) := f st m in r ++ render f st' ps'
  end.

(** [s.replace(re, f)] for a global [re] and a callback without state. *)
Definition replace (re : regex) (f : jsstring -> jsstring) (s : jsstring)
    : jsstring :=
  render (fun (_ : unit) m => (tt, f m)) tt (scan re s).

(** The matched texts, as [s.match(re)] returns them for a global [re]. *)
Fixpoint hits (ps : list piece) : list jsstring :=
  match ps with
  | [] => []
  | Lit _ :: ps' => hits ps'
  | Hit m _ :: ps' => m :: hits ps'
  end.

(** The first captures, as the [exec] loop collects [match[1]]. *)
Fixpoint captures (ps : list piece) : list jsstring :=
  match ps with
  | [] => []
  | Lit _ :: ps' => captures ps'
  | Hit _ g :: ps' => g :: captures ps'
  end.

(** The characters outside the matches. *)
Fixpoint literals (ps : list piece) : jsstring :=
  match ps with
  | [] => []
  | Lit c :: ps' => c :: literals ps'
  | Hit _ _ :: ps' => literals ps'
  end.

(** [s.replace(pat, repl)] for a string pattern: the first occurrence only. *)
Fixpoint replaceFirst (pat repl s : jsstring) : jsstring :=
  if startsWith s pat then repl ++ skipn (length pat) s
  else match s with
       | [] => []
       | c :: s' => c :: replaceFirst pat repl s'
       end.

Fixpoint join (sep : jsstring) (l : list jsstring) : jsstring :=
  match l with
  | [] => []
  | [x] => x
  | x :: l' => x ++ sep ++ join sep l'
  end.

Fixpoint trimStart (s : jsstring) : jsstring :=
  match s with
  | c :: r => if is_space c then trimStart r else s
  | [] => []
  end.

Definition trimEnd (s : jsstring) : jsstring := rev (trimStart (rev s)).

Definition trim (s : jsstring) : jsstring := trimEnd (trimStart s).

(** ** Numbers *)

Fixpoint uint_chars (d : Decimal.uint) : jsstring :=
  match d with
  | Decimal.Nil => []
  | Decimal.D0 d => 48%N :: uint_chars d
  | Decimal.D1 d => 49%N :: uint_chars d
  | Decimal.D2 d => 50%N :: uint_chars d
  | Decimal.D3 d => 51%N :: uint_chars d
  | Decimal.D4 d => 52%N :: uint_chars d
  | Decimal.D5 d => 53%N :: uint_chars d
  | Decimal.D6 d => 54%N :: uint_chars d
  | Decimal.D7 d => 55%N :: uint_chars d
  | Decimal.D8 d => 56%N :: uint_chars d
  | Decimal.D9 d => 57%N :: uint_chars d
  end.

(** The template text of a natural number. *)
Definition decimal (n : nat) : jsstring := uint_chars (Nat.to_uint n).

(** [parseInt] on a string of decimal digits.  The value is exact; the
    rounding of JavaScript numbers beyond 2^53 is monotone and changes no
    comparison with an array length. *)
Definition parseInt (s : jsstring) : N :=
  fold_left (fun acc c => (10 * acc + (c - 48))%N) s 0%N.

(** ** The footnote reconciler *)

(** Modelled from the spec: the types [Reference] and [AnswerAction] of
    [src/types], which is not among the sources; the fields are those that
    [buildMdFromAnswer] reads. *)
Record Reference := {
  exactQuote : jsstring;
  url : option jsstring   (* [None] is the absent field *)
}.

(** An absent [references] field behaves as the empty list
    ([!answer.references?.length]) and is not told apart from it. *)
Record AnswerAction := {
  answer : jsstring;
  references : list Reference
}.

(** The exception of the [URL] constructor. *)
Inductive error :=
| InvalidURL (input : jsstring).

Inductive result (A : Type) :=
| Ok (a : A)
| Throw (e : error).
Arguments Ok {A} a.
Arguments Throw {A} e.

Definition bind {A B : Type} (r : result A) (k : A -> result B) : result B :=
  match r with
  | Ok a => k a
  | Throw e => Throw e
  end.

Notation "x <- r ;; k" := (bind r (fun x => k))
  (at level 61, r at next level, right associativity).

Definition is_high_surrogate (c : char16) : bool :=
  ((0xD800 <=? c) && (c <=? 0xDBFF))%N.
Definition is_low_surrogate (c : char16) : bool :=
  ((0xDC00 <=? c) && (c <=? 0xDFFF))%N.
Definition code_point (hi lo : char16) : N :=
  (0x10000 + (hi - 0xD800) * 0x400 + (lo - 0xDC00))%N.

(** [`[^${num}]`] *)
Definition marker (num : jsstring) : jsstring :=
  [LBRACKET; CARET] ++ num ++ [RBRACKET].

(** [Array.from({length: n}, (_, i) => f i).join('')] *)
Definition tabulate (n : nat) (f : nat -> jsstring) : jsstring :=
  concat (map f (seq 0 n)).

Section Reconciler.

(** The platform: the Unicode general categories Letter and Number beyond
    ASCII, and [new URL(u).hostname], [None] when the constructor throws. *)
Variable unicode_letter : N -> bool.
Variable unicode_number : N -> bool.
Variable url_hostname : jsstring -> option jsstring.

(** [\p{L}] *)
Definition is_letter (cp : N) : bool :=
  if (cp <? 128)%N
  then (((65 <=? cp) && (cp <=? 90)) || ((97 <=? cp) && (cp <=? 122)))%N
  else unicode_letter cp.

(** [\p{N}] *)
Definition is_number (cp : N) : bool :=
  if (cp <? 128)%N then is_digit cp else unicode_number cp.

(** A code point outside the class [[^\p{L}\p{N}\s]]. *)
Definition is_word (cp : N) : bool :=
  is_letter cp || is_number cp || is_space cp.

(** [.replace(/[^\p{L}\p{N}\s]/gu, ' ')]: with the [u] flag the scan goes
    code point by code point, a surrogate pair counting as one. *)
Fixpoint replaceNonWord (s : jsstring) : jsstring :=
  match s with
  | [] => []
  | c :: s' =>
      match s' with
      | d :: s'' =>
          if is_high_surrogate c && is_low_surrogate d then
            if is_word (code_point c d) then c :: d :: replaceNonWord s''
            else SPACE :: replaceNonWord s''
          else (if is_word c then c else SPACE) :: replaceNonWord s'
      | [] => [if is_word c then c else SPACE]
      end
  end.

Definition cleanQuote (exactQuote : jsstring) : jsstring :=
  replace spacesRegex (fun _ => [SPACE]) (replaceNonWord exactQuote).

(** [.hostname.replace('www.', '')] *)
Definition domainName (hostname : jsstring) : jsstring :=
  replaceFirst (lit "www.") [] hostname.

(** The callback of [refs.map] in [formatReferences]. *)
Definition formatReference (i : nat) (ref : Reference) : result jsstring :=
  let citation :=
    marker (decimal (i + 1)) ++ lit ": " ++ cleanQuote (exactQuote ref) in
  match url ref with
  | None => Ok citation
  | Some u =>
      if negb (startsWith u (lit "http")) then Ok citation
      else
        match url_hostname u with
        | None => Throw (InvalidURL u)
        | Some hostname =>
            Ok (citation ++ lit " [" ++ domainName hostname ++ lit "]("
                  ++ u ++ lit ")")
        end
  end.

Fixpoint formatLines (i : nat) (refs : list Reference)
    : result (list jsstring) :=
  match refs with
  | [] => Ok []
  | ref :: refs' =>
      line <- formatReference i ref ;;
      lines <- formatLines (S i) refs' ;;
      Ok (line :: lines)
  end.

Definition formatReferences (refs : list Reference) : result jsstring :=
  lines <- formatLines 0 refs ;;
  Ok (join [NL; NL] lines).

(** The callback of the grouped-footnote [replace]. *)
Definition expandGrouped (m : jsstring) : jsstring :=
  let numbers := hits (scan digitsRegex m) in
  join (lit ", ") (map marker numbers).

Definition processAnswer (text : jsstring) : jsstring :=
  replace groupedFootnoteRegex expandGrouped text.

(** The markers found by the [exec] loop. *)
Definition findFootnotes (processedAnswer : jsstring) : list jsstring :=
  captures (scan footnoteRegex processedAnswer).

Definition allSame (footnotes : list jsstring) : bool :=
  forallb (fun n => str_eqb n (hd [] footnotes)) footnotes.

Definition needsCorrection (footnotes : list jsstring) (nrefs : nat) : bool :=
  ((length footnotes =? nrefs)%nat && allSame footnotes)
  || (allSame footnotes
      && (N.of_nat nrefs <? parseInt (hd [] footnotes))%N)
  || ((0 <? length footnotes)%nat
      && forallb (fun n => (N.of_nat nrefs <? parseInt n)%N) footnotes).

(** [processedAnswer.replace(footnoteRegex, () => `[^${++currentIndex}]`)];
    the state of the callback is [currentIndex]. *)
Definition correctAnswer (processedAnswer : jsstring) : jsstring :=
  render (fun currentIndex _ =>
            (S currentIndex, marker (decimal (S currentIndex))))
         0 (scan footnoteRegex processedAnswer).

Definition buildMdFromAnswer (a : AnswerAction) : result jsstring :=
  let refs := references a in
  if (length refs =? 0)%nat then
    Ok (replace footnoteRegex (fun _ => [])
          (replace groupedFootnoteRegex expandGrouped (answer a)))
  else
    let processedAnswer := processAnswer (answer a) in
    let footnotes := findFootnotes processedAnswer in
    if (length footnotes =? 0)%nat then
      let appendedCitations :=
        tabulate (length refs) (fun i => marker (decimal (i + 1))) in
      refsText <- formatReferences refs ;;
      Ok (trim ([NL] ++ processedAnswer ++ [NL; NL; DOTTED_CROSS]
                ++ appendedCitations ++ [NL; NL] ++ refsText ++ [NL]))
    else
      let needs := needsCorrection footnotes (length refs) in
      if (length footnotes <? length refs)%nat && negb needs then
        let usedIndices := map parseInt footnotes in
        let unusedReferences :=
          tabulate (length refs) (fun i =>
            if negb (existsb (N.eqb (N.of_nat (i + 1))) usedIndices)
            then marker (decimal (i + 1)) else []) in
        refsText <- formatReferences refs ;;
        Ok (trim ([NL] ++ processedAnswer ++ [SPACE; NL; NL; DOTTED_CROSS]
                  ++ unusedReferences ++ [NL; NL] ++ refsText ++ [NL]))
      else if negb needs then
        refsText <- formatReferences refs ;;
        Ok (trim ([NL] ++ processedAnswer ++ [NL; NL] ++ refsText ++ [NL]))
      else
        let correctedAnswer := correctAnswer processedAnswer in
        refsText <- formatReferences refs ;;
        Ok (trim ([NL] ++ correctedAnswer ++ [NL; NL] ++ refsText ++ [NL])).

End Reconciler.

(** The numbers of the footnote markers of a text, in order. *)
Definition markerNumbers (s : jsstring) : list N :=
  map parseInt (captures (scan footnoteRegex s)).

(** ** Notions used in the statements *)

(** What follows the taken prefix does not satisfy [p]. *)
Definition stops (p : char16 -> bool) (s : jsstring) : Prop :=
  match s with
  | [] => True
  | c :: _ => p c = false
  end.

(** A character that no footnote marker has after its opening bracket. *)
Definition breaker (c : char16) : bool :=
  negb (is_digit c) && negb (c =? CARET)%N && negb (c =? RBRACKET)%N.

Definition breaks (s : jsstring) : Prop :=
  match s with
  | [] => True
  | c :: _ => breaker c = true
  end.

(** The pieces of the corrected text: every match becomes the next
    sequential marker. *)
Fixpoint relabel (currentIndex : nat) (ps : list piece) : list piece :=
  match ps with
  | [] => []
  | Lit c :: ps' => Lit c :: relabel currentIndex ps'
  | Hit _ _ :: ps' =>
      Hit (marker (decimal (S currentIndex))) (decimal (S currentIndex))
      :: relabel (S currentIndex) ps'
  end.

Definition nextMarker (currentIndex : nat) (_ : jsstring) : nat * jsstring :=
  (S currentIndex, marker (decimal (S currentIndex))).

Definition no_outer_space (s : jsstring) : Prop :=
  stops is_space s /\ stops is_space (List.rev s).

(** The text of the answer as it is returned: renumbered in the correction
    case, as written otherwise. *)
Definition textPart (a : AnswerAction) : jsstring :=
  let processedAnswer := processAnswer (answer a) in
  if needsCorrection (findFootnotes processedAnswer) (length (references a))
  then correctAnswer processedAnswer
  else processedAnswer.

(** The marker line appended to the text, empty when there is none. *)
Definition markerLine (a : AnswerAction) : jsstring :=
  let footnotes := findFootnotes (processAnswer (answer a)) in
  let n := length (references a) in
  if (length footnotes =? 0)%nat then
    [NL; NL; DOTTED_CROSS] ++ tabulate n (fun i => marker (decimal (i + 1)))
  else if (length footnotes <? n)%nat && negb (needsCorrection footnotes n)
  then
    [SPACE; NL; NL; DOTTED_CROSS]
    ++ tabulate n (fun i =>
         if negb (existsb (N.eqb (N.of_nat (i + 1))) (map parseInt footnotes))
         then marker (decimal (i + 1)) else [])
  else [].

(** In the words of the specification: a run of white space becomes one
    space; [in_run] tells that the run has begun. *)
Fixpoint collapseSpaces (in_run : bool) (s : jsstring) : jsstring :=
  match s with
  | [] => []
  | c :: r =>
      if is_space c then
        if in_run then collapseSpaces true r
        else SPACE :: collapseSpaces true r
      else c :: collapseSpaces false r
  end.

(** A reference whose line gets no link. *)
Definition unlinked (ref : Reference) : Prop :=
  url ref = None
  \/ exists u, url ref = Some u /\ startsWith u (lit "http") = false.

(** The citation of a reference, before any link. *)
Definition citation (uL uN : N -> bool) (i : nat) (ref : Reference)
    : jsstring :=
  marker (decimal (i + 1)) ++ lit ": " ++ cleanQuote uL uN (exactQuote ref).

Fixpoint citationLines (uL uN : N -> bool) (i : nat) (refs : list Reference)
    : list jsstring :=
  match refs with
  | [] => []
  | ref :: refs' => citation uL uN i ref :: citationLines uL uN (S i) refs'
  end.

(** In the words of the specification: the code points of a text, each
    with its code units.  A high surrogate and the low surrogate after it
    are one code point; every other code unit is a code point by itself. *)
Fixpoint codePoints (s : jsstring) : list (N * jsstring) :=
  match s with
  | [] => []
  | c :: s' =>
      match s' with
      | d :: s'' =>
          if is_high_surrogate c && is_low_surrogate d
          then (code_point c d, [c; d]) :: codePoints s''
          else (c, [c]) :: codePoints s'
      | [] => [(c, [c])]
      end
  end.

(** A footnote marker begins the text. *)
Definition startsWithMarker (s : jsstring) : bool :=
  match footnoteRegex s with
  | Some _ => true
  | None => false
  end.

(** The text begins with an unfinished marker, an opening bracket alone or
    followed by a caret and digits if any, and a whole marker right after
    it, as in "[[^1]", "[^[^1]" and "[^2[^1]". *)
Definition gluedAt (s : jsstring) : bool :=
  match s with
  | c :: r =>
      (c =? LBRACKET)%N
      && (startsWithMarker r
          || match r with
             | c2 :: r1 =>
                 (c2 =? CARET)%N
                 && startsWithMarker
                      (skipn (length (takeWhile is_digit r1)) r1)
             | [] => false
             end)
  | [] => false
  end.

(** Somewhere in the text a marker stands right after an unfinished one. *)
Fixpoint glued (s : jsstring) : bool :=
  match s with
  | [] => false
  | c :: r => gluedAt (c :: r) || glued r
  end.

(** ** Sample inputs *)

(** A small stand-in for the URL parser, used to run the reconciler on
    examples: it accepts [http://host/...] and [https://host/...] with a
    host free of [/] and not empty, and throws on everything else. *)
Definition sample_hostname (u : jsstring) : option jsstring :=
  let after :=
    if startsWith u (lit "http://") then Some (skipn 7 u)
    else if startsWith u (lit "https://") then Some (skipn 8 u)
    else None in
  match after with
  | Some r =>
      match takeWhile (fun c => negb (c =? 47)%N) r with
      | [] => None
      | host => Some host
      end
  | None => None
  end.

Definition no_unicode (cp : N) : bool := false.

Definition plain (quote : string) : Reference :=
  {| exactQuote := lit quote; url := None |}.

Definition linked (quote link : string) : Reference :=
  {| exactQuote := lit quote; url := Some (lit link) |}.

Definition run (a : AnswerAction) : result jsstring :=
  buildMdFromAnswer no_unicode no_unicode sample_hostname a.

Definition three_same : AnswerAction :=
  {| answer := lit "[^2] [^2] [^2]";
     references := [plain "a"; plain "b"; plain "c."] |}.

Definition padded_no_refs : AnswerAction :=
  {| answer := lit " x "; references := [] |}.

Definition out_of_range : AnswerAction :=
  {| answer := lit "a [^5] b [^1]"; references := [plain "q"; plain "b"] |}.

Definition nested_marker : AnswerAction :=
  {| answer := lit "[^[^1]2]"; references := [] |}.

Definition grouped_no_refs : AnswerAction :=
  {| answer := lit "x [^1, ^2] y"; references := [] |}.

Definition bad_url : AnswerAction :=
  {| answer := lit "x"; references := [plain "q"; linked "b" "http"] |}.

Definition other_scheme : AnswerAction :=
  {| answer := lit "x";
     references := [plain "q"; linked "b" "ftp://example.com/a"] |}.

Definition one_of_three : AnswerAction :=
  {| answer := lit "a [^2] b";
     references := [plain "q"; plain "r"; plain "s!"] |}.

Definition no_markers : AnswerAction :=
  {| answer := lit "hello";
     references := [plain "Hello, world!!";
                    linked "b" "https://www.example.com/a"] |}.

Definition quote_with_stop : AnswerAction :=
  {| answer := lit "x"; references := [plain "c."] |}.

Definition brackets_no_refs : AnswerAction :=
  {| answer := lit "see [a](b) [^1, ^2] [c][^3]"; references := [] |}.

(** A stand-in for the letters beyond ASCII that knows U+20000 only. *)
Definition one_letter (cp : N) : bool := (cp =? 0x20000)%N.

(** ** The other text tools *)

Definition LT : char16 := 60%N.
Definition GT : char16 := 62%N.
Definition DOLLAR : char16 := 36%N.
Definition AMPERSAND : char16 := 38%N.
Definition BACKTICK : char16 := 96%N.
Definition APOSTROPHE : char16 := 39%N.

Definition is_newline (c : char16) : bool := (c =? NL)%N.
Definition not_gt (c : char16) : bool := negb (c =? GT)%N.

(** [/\n{2,}/] *)
Definition lineBreaksRegex : regex := fun s =>
  let run := takeWhile is_newline s in
  if (2 <=? length run)%nat then Some (length run, []) else None.

(** [text.replace(/\n{2,}/gm, '\n\n')] *)
Definition removeExtraLineBreaks (text : jsstring) : jsstring :=
  replace lineBreaksRegex (fun _ => [NL; NL]) text.

(** [/<[^>]*>?/]: the class takes every character but [>], line breaks
    too, and the closing [>] may be missing. *)
Definition tagRegex : regex := fun s =>
  match s with
  | c :: r =>
      if (c =? LT)%N then
        let body := takeWhile not_gt r in
        match skipn (length body) r with
        | _ :: _ => Some (1 + length body + 1, [])
        | [] => Some (1 + length body, [])
        end
      else None
  | [] => None
  end.

(** [text.replace(/<[^>]*>?/gm, '')] *)
Definition removeHTMLtags (text : jsstring) : jsstring :=
  replace tagRegex (fun _ => []) text.

(** [Array.prototype.slice(start, end)], as [slice] on strings. *)
Definition array_slice {A : Type} (a : list A) (start : Z) (end_ : option Z)
    : list A :=
  let len := Z.of_nat (length a) in
  let from := if (start <? 0)%Z then Z.max (len + start) 0 else Z.min start len in
  let e := match end_ with None => len | Some e => e end in
  let to := if (e <? 0)%Z then Z.max (len + e) 0 else Z.min e len in
  firstn (Z.to_nat (Z.max (to - from) 0)) (skipn (Z.to_nat from) a).

(** [a.sort(() => 0.5 - Math.random()).slice(0, k)] for an integer [k].
    The comparator is random, so that the order after the sort is any
    arrangement of the elements: [a'] is the array as the sort leaves it, in
    place, and [sample] the array returned. *)
Definition chooseK (a : list jsstring) (k : Z) (a' sample : list jsstring)
    : Prop :=
  Permutation a' a /\ sample = array_slice a' 0 (Some k).

(** *** Replacing a string pattern *)

(** GetSubstitution of ECMAScript for a pattern without captures: [$$] is a
    dollar, [$&] the matched text, [$`] the text before the match and [$']
    the text after it; any other dollar stands for itself. *)
Fixpoint getSubstitution (matched before after template : jsstring)
    : jsstring :=
  match template with
  | [] => []
  | c :: r =>
      if (c =? DOLLAR)%N then
        match r with
        | d :: r' =>
            if (d =? DOLLAR)%N then
              DOLLAR :: getSubstitution matched before after r'
            else if (d =? AMPERSAND)%N then
              matched ++ getSubstitution matched before after r'
            else if (d =? BACKTICK)%N then
              before ++ getSubstitution matched before after r'
            else if (d =? APOSTROPHE)%N then
              after ++ getSubstitution matched before after r'
            else DOLLAR :: getSubstitution matched before after r
        | [] => [DOLLAR]
        end
      else c :: getSubstitution matched before after r
  end.

(** [s.replace(pat, repl)] for strings [pat] and [repl]: the first
    occurrence of [pat] is replaced; [before] is the text already passed. *)
Fixpoint replaceString (pat repl before s : jsstring) : jsstring :=
  if startsWith s pat then
    let after := skipn (length pat) s in
    before ++ getSubstitution pat before after repl ++ after
  else
    match s with
    | [] => before
    | c :: s' => replaceString pat repl (before ++ [c]) s'
    end.

(** *** Localized texts *)

Module I18n.

Local Set Warnings "-register-all".

(** A value of JavaScript as [getI18nText] meets it.  A value that is
    neither [undefined], [null] nor a string (an object, an array, a number,
    a boolean, a function) is given by what the code asks of it: whether it
    is truthy, its properties, read through the prototype chain, and the
    result of calling its [replace] property with a pattern and a value,
    [None] when that property is no function, so that the call is a
    TypeError. *)
Inductive value :=
| Undefined
| Null
| Str (s : jsstring)
| Other (is_truthy : bool) (get : jsstring -> value)
        (callReplace : jsstring -> jsstring -> option value).

(** What a call leaves: the value returned, or a TypeError, of reading a
    property of [undefined] or [null] or of calling what is no function. *)
Inductive outcome :=
| Returned (text : value)
| TypeError.

(** [!!v] *)
Definition truthy (v : value) : bool :=
  match v with
  | Undefined | Null => false
  | Str s => negb (is_empty s)
  | Other is_truthy _ _ => is_truthy
  end.


(** [`\${${paramKey}}`] *)
Definition placeholder (paramKey : jsstring) : jsstring :=
  lit "${" ++ paramKey ++ lit "}".

(** The [forEach] over [Object.keys(params)]; [params] lists the keys with
    their values in that order. *)
Definition applyParams (params : list (jsstring * jsstring)) (text : jsstring)
    : jsstring :=
  fold_left
    (fun text kv => replaceString (placeholder (fst kv)) (snd kv) [] text)
    params text.

Definition languageNotFound (lang : jsstring) : jsstring :=
  lit "Language '" ++ lang ++ lit "' not found, falling back to English.".

Definition keyNotFound (key lang : jsstring) : jsstring :=
  lit "Key '" ++ key ++ lit "' not found for language '" ++ lang
  ++ lit "', falling back to English.".

Definition keyNotFoundEither (key : jsstring) : jsstring :=
  lit "Key '" ++ key ++ lit "' not found for English either.".

(** [text.replace(pat, repl)] for any [text] and strings [pat], [repl]. *)
Definition replaceIn (text : value) (pat repl : jsstring) : option value :=
  match text with
  | Str s => Some (Str (replaceString pat repl [] s))
  | Other _ _ callReplace => callReplace pat repl
  | Undefined | Null => None
  end.

(** The [forEach] over [Object.keys(params)] for any [text]: on a string it
    is [applyParams]; [None] when a call of [replace] is a TypeError. *)
Fixpoint substitute (params : list (jsstring * jsstring)) (text : value)
    : option value :=
  match params with
  | [] => Some text
  | kv :: params' =>
      match replaceIn text (placeholder (fst kv)) (snd kv) with
      | Some text' => substitute params' text'
      | None => None
      end
  end.

Definition withParams (params : list (jsstring * jsstring)) (text : value)
    : outcome :=
  match substitute params text with
  | Some text' => Returned text'
  | None => TypeError
  end.

Section Data.

(** Modelled from the spec: the data file [i18n.json], which is not among
    the sources.  [i18nData name] is [i18nData[name]] as JavaScript reads
    it: the value of the file under the name, else what the prototype chain
    of the object gives for it (a function for "constructor" and the like),
    else [undefined]. *)
Variable i18nData : jsstring -> value.

(** The platform: [s[key]] for a string [s], its length, its characters
    and what the prototype of strings gives. *)
Variable stringProperty : jsstring -> jsstring -> value.

(** [v[key]], [None] when the read is a TypeError. *)
Definition property (v : value) (key : jsstring) : option value :=
  match v with
  | Undefined | Null => None
  | Str s => Some (stringProperty s key)
  | Other _ get _ => Some (get key)
  end.

(** The lines written by [console.error], in order, and the outcome; the
    caller gives [lang] and [params], whose defaults are ['en'] and [{}]. *)
Definition getI18nText (key lang : jsstring)
    (params : list (jsstring * jsstring)) : list jsstring * outcome :=
  let '(log1, lang1) :=
    if truthy (i18nData lang) then ([], lang)
    else ([languageNotFound lang], lit "en") in
  match property (i18nData lang1) key with
  | None => (log1, TypeError)
  | Some text =>
      if truthy text then (log1, withParams params text)
      else
        let log2 := log1 ++ [keyNotFound key lang1] in
        match property (i18nData (lit "en")) key with
        | None => (log2, TypeError)
        | Some text' =>
            if truthy text' then (log2, withParams params text')
            else (log2 ++ [keyNotFoundEither key], Returned (Str key))
        end
  end.

End Data.

End I18n.

(** *** Notions used in the statements on the other tools *)

(** At most two line breaks of a run are kept; [run] is the number of line
    breaks just passed. *)
Fixpoint capLineBreaks (run : nat) (s : jsstring) : jsstring :=
  match s with
  | [] => []
  | c :: r =>
      if is_newline c then
        if (run <? 2)%nat then NL :: capLineBreaks (S run) r
        else capLineBreaks (S run) r
      else c :: capLineBreaks 0 r
  end.

(** The text outside the tags; [in_tag] tells that a tag is open. *)
Fixpoint stripTags (in_tag : bool) (s : jsstring) : jsstring :=
  match s with
  | [] => []
  | c :: r =>
      if in_tag then
        if (c =? GT)%N then stripTags false r else stripTags true r
      else if (c =? LT)%N then stripTags true r
      else c :: stripTags false r
  end.

(** The url of the first reference that the URL parser is run on and
    refuses. *)
Fixpoint firstRefusedUrl (parser : jsstring -> option jsstring)
    (refs : list Reference) : option jsstring :=
  match refs with
  | [] => None
  | ref :: refs' =>
      match url ref with
      | Some u =>
          if startsWith u (lit "http") then
            match parser u with
            | None => Some u
            | Some _ => firstRefusedUrl parser refs'
            end
          else firstRefusedUrl parser refs'
      | None => firstRefusedUrl parser refs'
      end
  end.

(** A grouped footnote as it is written: the first number, then each
    further number after a comma, white space [fst] and a caret. *)
Definition groupedTail (items : list (jsstring * jsstring)) : jsstring :=
  concat (map (fun item => [COMMA] ++ fst item ++ [CARET] ++ snd item) items).

Definition groupedMarker (first : jsstring)
    (items : list (jsstring * jsstring)) : jsstring :=
  [LBRACKET; CARET] ++ first ++ groupedTail items ++ [RBRACKET].

Definition is_number_text (d : jsstring) : Prop :=
  d <> [] /\ forallb is_digit d = true.

(** An item of a grouped footnote: white space, then a number. *)
Definition written_item (item : jsstring * jsstring) : Prop :=
  forallb is_space (fst item) = true /\ is_number_text (snd item).

Definition ascii_alnum (c : char16) : bool :=
  (((48 <=? c) && (c <=? 57)) || ((65 <=? c) && (c <=? 90))
   || ((97 <=? c) && (c <=? 122)))%N.

(** The steps of [getI18nText] once the language is settled; [log1] holds
    the lines written so far. *)
Definition fromLanguage (i18nData : jsstring -> I18n.value)
    (stringProperty : jsstring -> jsstring -> I18n.value)
    (key lang1 : jsstring) (params : list (jsstring * jsstring))
    (log1 : list jsstring) : list jsstring * I18n.outcome :=
  match I18n.property stringProperty (i18nData lang1) key with
  | None => (log1, I18n.TypeError)
  | Some text =>
      if I18n.truthy text then (log1, I18n.withParams params text)
      else
        let log2 := log1 ++ [I18n.keyNotFound key lang1] in
        match I18n.property stringProperty (i18nData (lit "en")) key with
        | None => (log2, I18n.TypeError)
        | Some text' =>
            if I18n.truthy text' then (log2, I18n.withParams params text')
            else (log2 ++ [I18n.keyNotFoundEither key],
                  I18n.Returned (I18n.Str key))
        end
  end.

(** A stand-in for a function that every object inherits, as [Object] under
    the name "constructor": truthy, no string, without properties of
    interest and without a [replace] to call. *)
Definition inherited_function : I18n.value :=
  I18n.Other true (fun _ => I18n.Undefined) (fun _ _ => None).

(** The read of a property of an object of a data file: its own value, else
    the function inherited under "constructor", else [undefined]. *)
Definition own_or_inherited (own : option I18n.value) (name : jsstring)
    : I18n.value :=
  match own with
  | Some v => v
  | None =>
      if str_eqb name (lit "constructor") then inherited_function
      else I18n.Undefined
  end.

(** A table of a data file with the texts [texts]. *)
Definition json_table (texts : jsstring -> option jsstring) : I18n.value :=
  I18n.Other true
    (fun key => own_or_inherited (option_map I18n.Str (texts key)) key)
    (fun _ _ => None).

(** A small data file for examples: English has [hi] and an empty [e],
    French has [bye]. *)
Definition sample_i18n (lang : jsstring) : I18n.value :=
  own_or_inherited
    (if str_eqb lang (lit "en") then
       Some (json_table (fun key =>
               if str_eqb key (lit "hi") then Some (lit "Hello ${name}!")
               else if str_eqb key (lit "e") then Some []
               else None))
     else if str_eqb lang (lit "fr") then
       Some (json_table (fun key =>
               if str_eqb key (lit "bye") then Some (lit "Au revoir")
               else None))
     else None)
    lang.


(** A stand-in for the properties of strings, which the examples do not
    read. *)
Definition no_string_property (s key : jsstring) : I18n.value :=
  I18n.Undefined.

(** ** Basic facts on strings *)

Lemma str_eqb_eq (a b : jsstring) : str_eqb a b = true <-> a = b.
Proof.
  revert b; induction a as [|x a IH]; intros [|y b]; simpl; split;
    try congruence; try reflexivity.
  - intros H. apply andb_true_iff in H as [Hx Hab].
    apply N.eqb_eq in Hx. apply IH in Hab. congruence.
  - intros H. injection H as -> ->. rewrite N.eqb_refl. simpl. now apply IH.
Qed.

Lemma str_eqb_neq (a b : jsstring) : str_eqb a b = false <-> a <> b.
Proof.
  split.
  - intros H E. apply str_eqb_eq in E. congruence.
  - intros H. destruct (str_eqb a b) eqn:E; [|reflexivity].
    apply str_eqb_eq in E. contradiction.
Qed.

Lemma startsWith_app (s p : jsstring) :
  startsWith s p = true <-> exists r, s = p ++ r.
Proof.
  revert s; induction p as [|x p IH]; intros s; simpl.
  - split; [intros _; now exists s | reflexivity].
  - destruct s as [|y s].
    + split; [discriminate | intros [r Hr]; discriminate].
    + split.
      * intros H. apply andb_true_iff in H as [Hx Hs].
        apply N.eqb_eq in Hx. apply IH in Hs as [r ->]. exists r. now subst.
      * intros [r Hr]. injection Hr as -> ->. rewrite N.eqb_refl. simpl.
        apply IH. now exists r.
Qed.

Lemma includes_app (s t : jsstring) :
  includes s t = true <-> exists a b, s = a ++ t ++ b.
Proof.
  induction s as [|c s IH].
  - simpl. rewrite orb_false_r. split.
    + intros H. apply startsWith_app in H as [r Hr]. now exists [], r.
    + intros (a & b & H). apply startsWith_app.
      destruct a; [now exists b|discriminate].
  - cbn [includes]. rewrite orb_true_iff. split.
    + intros [H|H].
      * apply startsWith_app in H as [r Hr]. now exists [], r.
      * apply IH in H as (a & b & ->). now exists (c :: a), b.
    + intros (a & b & H). destruct a as [|x a].
      * left. apply startsWith_app. now exists b.
      * right. apply IH. injection H as -> ->. now exists a, b.
Qed.

Lemma includes_length (s t : jsstring) :
  includes s t = true -> length t <= length s.
Proof.
  intros H. apply includes_app in H as (a & b & ->).
  rewrite !length_app. lia.
Qed.

Lemma includes_same_length (s t : jsstring) :
  includes s t = true -> length s <= length t -> s = t.
Proof.
  intros H Hl. apply includes_app in H as (a & b & ->).
  rewrite !length_app in Hl.
  destruct a; [|simpl in Hl; lia].
  destruct b; [|simpl in Hl; lia].
  simpl. now rewrite app_nil_r.
Qed.

Lemma slice_from (s : jsstring) (n : nat) :
  n <= length s -> slice s (Z.of_nat n) None = skipn n s.
Proof.
  intros H. unfold slice.
  destruct (Z.ltb_spec (Z.of_nat n) 0); [lia|].
  destruct (Z.ltb_spec (Z.of_nat (length s)) 0); [lia|].
  rewrite !Z.min_l by lia. rewrite Nat2Z.id.
  rewrite firstn_all2; [reflexivity|].
  rewrite length_skipn. lia.
Qed.

Lemma slice_to (s : jsstring) (n : nat) :
  slice s 0 (Some (Z.of_nat n)) = firstn n s.
Proof.
  unfold slice. simpl (0 <? 0)%Z. cbv iota.
  destruct (Z.ltb_spec (Z.of_nat n) 0); [lia|].
  replace (Z.min 0 (Z.of_nat (length s))) with 0%Z by lia.
  simpl (Z.to_nat 0). simpl skipn. rewrite Z.sub_0_r.
  destruct (Nat.le_gt_cases n (length s)).
  - replace (Z.max (Z.min (Z.of_nat n) (Z.of_nat (length s))) 0)
      with (Z.of_nat n) by lia.
    now rewrite Nat2Z.id.
  - replace (Z.max (Z.min (Z.of_nat n) (Z.of_nat (length s))) 0)
      with (Z.of_nat (length s)) by lia.
    rewrite Nat2Z.id. rewrite !firstn_all2; [reflexivity|lia|lia].
Qed.

(** ** The fragment merger: the loop *)

Import Merge.

Lemma overlap_test (str1 str2 : jsstring) (L : nat) :
  L <= length str1 ->
  str_eqb (slice str1 (Z.of_nat (length str1) - Z.of_nat L)%Z None)
          (slice str2 0 (Some (Z.of_nat L))) = true
  <-> skipn (length str1 - L) str1 = firstn L str2.
Proof.
  intros HL.
  replace (Z.of_nat (length str1) - Z.of_nat L)%Z
    with (Z.of_nat (length str1 - L)) by lia.
  rewrite slice_from by lia. rewrite slice_to. apply str_eqb_eq.
Qed.

Lemma bestOverlap_le (str1 str2 : jsstring) (n : nat) :
  bestOverlap str1 str2 n <= n.
Proof.
  induction n as [|n IH]; [reflexivity|].
  cbn [bestOverlap].
  destruct (str_eqb _ _); lia.
Qed.

Lemma bestOverlap_sound (str1 str2 : jsstring) (n : nat) :
  n <= Nat.min (length str1) (length str2) ->
  0 < bestOverlap str1 str2 n ->
  overlap str1 str2 (bestOverlap str1 str2 n).
Proof.
  induction n as [|n IH]; intros Hn Hpos; [simpl in Hpos; lia|].
  cbn [bestOverlap] in *.
  destruct (str_eqb _ _) eqn:E.
  - apply overlap_test in E; [|lia]. split; [lia|exact E].
  - apply IH; [lia|exact Hpos].
Qed.

Lemma bestOverlap_greatest (str1 str2 : jsstring) (n L : nat) :
  n <= length str1 -> L <= n -> overlap str1 str2 L ->
  L <= bestOverlap str1 str2 n.
Proof.
  induction n as [|n IH]; intros Hn HL Hov.
  - lia.
  - cbn [bestOverlap].
    destruct (str_eqb _ _) eqn:E; [exact HL|].
    destruct (Nat.eq_dec L (S n)) as [->|Hne].
    + destruct Hov as [_ Hov]. apply overlap_test in Hov; [|lia]. congruence.
    + apply IH; [lia|lia|exact Hov].
Qed.

Lemma is_empty_false (s : jsstring) : s <> [] -> is_empty s = false.
Proof. destruct s; [contradiction|reflexivity]. Qed.

Lemma merge_uncontained (str1 str2 : jsstring) :
  str1 <> [] -> str2 <> [] ->
  includes str1 str2 = false -> includes str2 str1 = false ->
  let best := bestOverlap str1 str2 (Nat.min (length str1) (length str2)) in
  smartMergeStrings str1 str2 =
    if (0 <? best)%nat then firstn (length str1 - best) str1 ++ str2
    else str1 ++ str2.
Proof.
  intros H1 H2 H12 H21 best. unfold smartMergeStrings.
  rewrite (is_empty_false _ H1), (is_empty_false _ H2), H12, H21.
  fold best. destruct (0 <? best)%nat; [|reflexivity].
  assert (Hb : best <= length str1).
  { unfold best.
    pose proof (bestOverlap_le str1 str2 (Nat.min (length str1) (length str2))).
    lia. }
  replace (Z.of_nat (length str1) - Z.of_nat best)%Z
    with (Z.of_nat (length str1 - best)) by lia.
  now rewrite slice_to.
Qed.

Lemma merge_contains_second (str1 str2 : jsstring) :
  includes str1 str2 = true -> smartMergeStrings str1 str2 = str1.
Proof.
  intros H. unfold smartMergeStrings.
  destruct str1 as [|c str1].
  - apply includes_length in H. destruct str2; [reflexivity|simpl in H; lia].
  - cbn [is_empty]. destruct str2; [reflexivity|]. cbn [is_empty].
    now rewrite H.
Qed.

Lemma merge_contains_first (str1 str2 : jsstring) :
  includes str2 str1 = true -> smartMergeStrings str1 str2 = str2.
Proof.
  intros H. unfold smartMergeStrings.
  destruct str1 as [|c str1]; [reflexivity|]. cbn [is_empty].
  destruct str2 as [|d str2].
  - apply includes_length in H. simpl in H. lia.
  - cbn [is_empty]. destruct (includes (c :: str1) (d :: str2)) eqn:E.
    + apply includes_same_length; [exact E|]. now apply includes_length.
    + now rewrite H.
Qed.

(** ** The fragment merger: properties *)

(** C3. For non-empty strings none of which contains the other: when some
    length [L] from 1 to the shorter length has the last [L] characters of
    [first] equal to the first [L] of [second], the merge is [first] without
    its last [Lmax] characters followed by [second], for the greatest such
    length [Lmax]; when there is none, the merge is the plain concatenation.
    A string that contains the other one is returned as it is.  The three
    examples of the specification. *)
Theorem C3_merge_overlap :
  (forall first second : jsstring,
      first <> [] -> second <> [] ->
      includes first second = false -> includes second first = false ->
      ((exists L, overlap first second L) ->
       exists Lmax,
         overlap first second Lmax
         /\ (forall L, overlap first second L -> L <= Lmax)
         /\ smartMergeStrings first second
            = firstn (length first - Lmax) first ++ second)
      /\ ((forall L, ~ overlap first second L) ->
          smartMergeStrings first second = first ++ second))
  /\ (forall first second : jsstring,
         includes first second = true ->
         smartMergeStrings first second = first)
  /\ (forall first second : jsstring,
         includes second first = true ->
         smartMergeStrings first second = second)
  /\ smartMergeStrings (lit "hello wor") (lit "world") = lit "hello world"
  /\ smartMergeStrings (lit "abc") (lit "b") = lit "abc"
  /\ smartMergeStrings (lit "foo") (lit "bar") = lit "foobar".
Proof.
  split; [|split; [exact merge_contains_second|];
           split; [exact merge_contains_first|];
           repeat split; reflexivity].
  intros first second H1 H2 H12 H21.
  pose proof (merge_uncontained _ _ H1 H2 H12 H21) as Hm. cbv zeta in Hm.
  set (m := Nat.min (length first) (length second)) in *.
  set (best := bestOverlap first second m) in *.
  assert (Hgreatest : forall L, overlap first second L -> L <= best).
  { intros L HL. apply bestOverlap_greatest; [unfold m; lia| |exact HL].
    destruct HL as [HL _]. fold m in HL. lia. }
  split.
  - intros [L HL]. exists best.
    assert (Hpos : 0 < best).
    { pose proof (Hgreatest L HL). destruct HL as [HL _]. lia. }
    split; [apply bestOverlap_sound; [reflexivity|exact Hpos]|].
    split; [exact Hgreatest|].
    rewrite Hm. apply Nat.ltb_lt in Hpos. now rewrite Hpos.
  - intros Hnone. rewrite Hm.
    destruct (0 <? best)%nat eqn:E; [|reflexivity].
    apply Nat.ltb_lt in E. exfalso. apply (Hnone best).
    apply bestOverlap_sound; [reflexivity|exact E].
Qed.

Lemma C3_merge_overlap_witness :
  lit "hello wor" <> [] /\ lit "world" <> []
  /\ includes (lit "hello wor") (lit "world") = false
  /\ includes (lit "world") (lit "hello wor") = false
  /\ overlap (lit "hello wor") (lit "world") 3
  /\ exists Lmax,
       overlap (lit "hello wor") (lit "world") Lmax
       /\ smartMergeStrings (lit "hello wor") (lit "world")
          = firstn (9 - Lmax) (lit "hello wor") ++ lit "world".
Proof.
  assert (Hov : overlap (lit "hello wor") (lit "world") 3).
  { split; [simpl; lia|reflexivity]. }
  split; [discriminate|]. split; [discriminate|].
  split; [reflexivity|]. split; [reflexivity|]. split; [exact Hov|].
  destruct C3_merge_overlap as [H _].
  assert (Hne1 : lit "hello wor" <> []) by discriminate.
  assert (Hne2 : lit "world" <> []) by discriminate.
  destruct (H (lit "hello wor") (lit "world") Hne1 Hne2 eq_refl eq_refl)
    as [Hbest _].
  destruct (Hbest (ex_intro _ 3 Hov)) as (Lmax & HLmax & _ & Hmerge).
  exists Lmax. split; [exact HLmax|exact Hmerge].
Defined.

(** C9. The empty string is a left and a right identity of the merge. *)
Theorem C9_merge_empty_identity (s : jsstring) :
  smartMergeStrings s [] = s /\ smartMergeStrings [] s = s.
Proof.
  split; [|reflexivity].
  unfold smartMergeStrings. destruct s; reflexivity.
Qed.

(** C10. The merge of two strings is at least as long as the longer of
    them and at most as long as their concatenation. *)
Theorem C10_merge_length_bounds (s1 s2 : jsstring) :
  Nat.max (length s1) (length s2) <= length (smartMergeStrings s1 s2)
  /\ length (smartMergeStrings s1 s2) <= length s1 + length s2.
Proof.
  destruct (includes s1 s2) eqn:E12.
  { rewrite (merge_contains_second _ _ E12).
    apply includes_length in E12. lia. }
  destruct (includes s2 s1) eqn:E21.
  { rewrite (merge_contains_first _ _ E21).
    apply includes_length in E21. lia. }
  destruct s1 as [|c1 s1]; [unfold smartMergeStrings; simpl; lia|].
  destruct s2 as [|c2 s2]; [unfold smartMergeStrings; simpl; lia|].
  rewrite merge_uncontained by (discriminate || assumption).
  cbv zeta.
  pose proof (bestOverlap_le (c1 :: s1) (c2 :: s2)
                (Nat.min (length (c1 :: s1)) (length (c2 :: s2)))) as Hb.
  destruct (0 <? _)%nat.
  - rewrite length_app, length_firstn. lia.
  - rewrite length_app. lia.
Qed.

(** ** The scan of a global regular expression *)

Section Scan.

Variable re : regex.

(** A match is not empty and lies within the input. *)
Hypothesis re_bounds :
  forall s n g, re s = Some (n, g) -> 1 <= n <= length s.

Lemma scan_from_skipn (k : nat) (s : jsstring) :
  scan_from re k s = scan re (skipn k s).
Proof.
  revert k; induction s as [|c s IH]; intros k.
  - now destruct k.
  - destruct k as [|k]; [reflexivity|]. cbn [scan_from skipn]. apply IH.
Qed.

Lemma scan_nil : scan re [] = [].
Proof. reflexivity. Qed.

Lemma scan_miss (c : char16) (s : jsstring) :
  re (c :: s) = None -> scan re (c :: s) = Lit c :: scan re s.
Proof. intros H. unfold scan. cbn [scan_from]. now rewrite H. Qed.

Lemma scan_hit (s : jsstring) (n : nat) (g : jsstring) :
  re s = Some (n, g) -> scan re s = Hit (firstn n s) g :: scan re (skipn n s).
Proof.
  intros H. pose proof (re_bounds _ _ _ H) as Hn.
  destruct s as [|c s]; [simpl in Hn; lia|].
  unfold scan at 1. cbn [scan_from]. rewrite H. f_equal.
  rewrite scan_from_skipn. destruct n; [lia|reflexivity].
Qed.

(** Induction along the scan. *)
Lemma scan_ind (P : jsstring -> Prop) :
  P [] ->
  (forall c s, re (c :: s) = None -> P s -> P (c :: s)) ->
  (forall s n g, re s = Some (n, g) -> P (skipn n s) -> P s) ->
  forall s, P s.
Proof.
  intros Hnil Hmiss Hhit s.
  remember (length s) as m eqn:Hm.
  revert s Hm. induction m as [m IH] using lt_wf_ind. intros s Hm.
  destruct s as [|c s]; [exact Hnil|].
  destruct (re (c :: s)) as [[n g]|] eqn:E.
  - apply (Hhit _ _ _ E). pose proof (re_bounds _ _ _ E) as Hn.
    apply (IH (length (skipn n (c :: s)))); [|reflexivity].
    rewrite length_skipn. subst m. lia.
  - apply (Hmiss _ _ E). apply (IH (length s)); [|reflexivity].
    subst m. simpl. lia.
Qed.

(** The text is the pieces put together again. *)
Lemma render_id (s : jsstring) :
  render (fun (_ : unit) m => (tt, m)) tt (scan re s) = s.
Proof.
  induction s as [| c s Hc IH | s n g Hs IH] using scan_ind.
  - reflexivity.
  - rewrite (scan_miss _ _ Hc). cbn [render]. now rewrite IH.
  - rewrite (scan_hit _ _ _ Hs). cbn [render]. rewrite IH. apply firstn_skipn.
Qed.

End Scan.

Lemma replace_empty_literals (re : regex) (s : jsstring) :
  replace re (fun _ => []) s = literals (scan re s).
Proof.
  unfold replace. induction (scan re s) as [|[c|m g] ps IH]; cbn; congruence.
Qed.

(** ** Facts on [takeWhile] *)

Lemma takeWhile_all (p : char16 -> bool) (s : jsstring) :
  forallb p (takeWhile p s) = true.
Proof.
  induction s as [|c s IH]; [reflexivity|]. cbn [takeWhile].
  destruct (p c) eqn:E; [|reflexivity]. cbn [forallb]. now rewrite E.
Qed.

Lemma takeWhile_length (p : char16 -> bool) (s : jsstring) :
  length (takeWhile p s) <= length s.
Proof.
  induction s as [|c s IH]; [reflexivity|]. cbn [takeWhile].
  destruct (p c); simpl; lia.
Qed.

Lemma takeWhile_skipn (p : char16 -> bool) (s : jsstring) :
  takeWhile p s ++ skipn (length (takeWhile p s)) s = s.
Proof.
  induction s as [|c s IH]; [reflexivity|]. cbn [takeWhile].
  destruct (p c); [|reflexivity]. cbn. now rewrite IH.
Qed.

Lemma takeWhile_stops (p : char16 -> bool) (s : jsstring) :
  stops p (skipn (length (takeWhile p s)) s).
Proof.
  induction s as [|c s IH]; [exact I|]. cbn [takeWhile].
  destruct (p c) eqn:E; [exact IH|exact E].
Qed.

Lemma takeWhile_app (p : char16 -> bool) (g t : jsstring) :
  forallb p g = true -> stops p t -> takeWhile p (g ++ t) = g.
Proof.
  intros Hg Ht. induction g as [|c g IH].
  - destruct t as [|d t]; [reflexivity|]. simpl in *. now rewrite Ht.
  - cbn [forallb] in Hg. apply andb_true_iff in Hg as [Hc Hg].
    cbn. rewrite Hc. now rewrite IH.
Qed.

Lemma takeWhile_app_stops (p : char16 -> bool) (r y : jsstring) :
  stops p y -> takeWhile p (r ++ y) = takeWhile p r.
Proof.
  intros Hy. induction r as [|c r IH].
  - destruct y as [|d y]; [reflexivity|]. simpl in *. now rewrite Hy.
  - cbn. destruct (p c); [now rewrite IH|reflexivity].
Qed.

(** ** The footnote expression *)

Lemma marker_length (g : jsstring) : length (marker g) = 2 + length g + 1.
Proof. unfold marker. cbn. rewrite length_app. simpl. lia. Qed.

Lemma footnoteRegex_marker (g rest : jsstring) :
  forallb is_digit g = true -> g <> [] ->
  footnoteRegex (marker g ++ rest) = Some (2 + length g + 1, g).
Proof.
  intros Hg Hne. unfold marker, footnoteRegex. cbn [app].
  rewrite <- app_assoc.
  rewrite (takeWhile_app is_digit g _ Hg) by reflexivity.
  rewrite skipn_app, skipn_all, Nat.sub_diag. cbn [app skipn].
  destruct g; [contradiction|]. reflexivity.
Qed.

Lemma footnoteRegex_inv (s : jsstring) (n : nat) (g : jsstring) :
  footnoteRegex s = Some (n, g) ->
  s = marker g ++ skipn n s /\ n = 2 + length g + 1
  /\ forallb is_digit g = true /\ g <> [].
Proof.
  unfold footnoteRegex. destruct s as [|c1 [|c2 r]]; try discriminate.
  set (digits := takeWhile is_digit r).
  destruct (c1 =? LBRACKET)%N eqn:E1; [|discriminate].
  destruct (c2 =? CARET)%N eqn:E2; [|discriminate].
  destruct (is_empty digits) eqn:E3; [discriminate|].
  destruct (startsWith _ _) eqn:E4; [|discriminate].
  cbn [andb negb]. intros H. injection H as <- <-.
  apply N.eqb_eq in E1, E2. subst c1 c2.
  apply startsWith_app in E4 as [rest Hrest].
  pose proof (takeWhile_skipn is_digit r) as Hr. fold digits in Hr.
  rewrite Hrest in Hr.
  repeat split.
  - unfold marker. cbn [app skipn plus]. do 2 f_equal.
    rewrite <- Hr at 1. rewrite <- app_assoc. f_equal.
    rewrite <- Hr. rewrite skipn_app.
    rewrite skipn_all2 by lia.
    replace (length digits + 1 - length digits) with 1 by lia.
    reflexivity.
  - apply takeWhile_all.
  - intros ->. discriminate.
Qed.

Lemma footnoteRegex_bounds (s : jsstring) (n : nat) (g : jsstring) :
  footnoteRegex s = Some (n, g) -> 1 <= n <= length s.
Proof.
  intros H. apply footnoteRegex_inv in H as (Hs & Hn & _).
  apply (f_equal (@length _)) in Hs.
  rewrite length_app, marker_length in Hs. lia.
Qed.

Lemma breaks_stops_digit (y : jsstring) : breaks y -> stops is_digit y.
Proof.
  destruct y as [|c y]; [trivial|]. unfold breaks, breaker, stops.
  destruct (is_digit c); [discriminate|reflexivity].
Qed.

(** A match never reaches over a breaker. *)
Lemma footnoteRegex_local (x y : jsstring) :
  x <> [] -> breaks y -> footnoteRegex (x ++ y) = footnoteRegex x.
Proof.
  intros Hx Hy. destruct x as [|c1 [|c2 r]]; [contradiction| |].
  - cbn. destruct y as [|c y]; [reflexivity|].
    unfold breaks, breaker in Hy.
    destruct (c =? CARET)%N; [|now rewrite andb_false_r].
    rewrite andb_false_r in Hy. discriminate.
  - cbn [app footnoteRegex].
    rewrite (takeWhile_app_stops is_digit r y (breaks_stops_digit y Hy)).
    set (digits := takeWhile is_digit r).
    assert (Hk : length digits <= length r) by apply takeWhile_length.
    rewrite skipn_app.
    replace (length digits - length r) with 0 by lia. cbn [skipn].
    destruct (skipn (length digits) r) as [|d t]; [|reflexivity].
    cbn [app]. destruct y as [|c y]; [reflexivity|].
    cbn [startsWith breaks] in *.
    destruct (RBRACKET =? c)%N eqn:E; [|reflexivity].
    apply N.eqb_eq in E. subst c. discriminate Hy.
Qed.

Lemma uint_chars_digits (d : Decimal.uint) :
  forallb is_digit (uint_chars d) = true.
Proof. induction d; cbn; auto. Qed.

Lemma decimal_digits (n : nat) : forallb is_digit (decimal n) = true.
Proof. apply uint_chars_digits. Qed.

Lemma decimal_nonempty (n : nat) : decimal n <> [].
Proof.
  unfold decimal. destruct (Nat.to_uint n) eqn:E; try discriminate.
  pose proof (DecimalNat.Unsigned.of_to n) as H. rewrite E in H.
  cbn in H. subst n. discriminate.
Qed.

Lemma footnoteRegex_decimal (n : nat) (rest : jsstring) :
  footnoteRegex (marker (decimal n) ++ rest)
  = Some (length (marker (decimal n)), decimal n).
Proof.
  rewrite marker_length.
  apply footnoteRegex_marker; [apply decimal_digits|apply decimal_nonempty].
Qed.

Lemma scan_marker (n : nat) (rest : jsstring) :
  scan footnoteRegex (marker (decimal n) ++ rest)
  = Hit (marker (decimal n)) (decimal n) :: scan footnoteRegex rest.
Proof.
  rewrite (scan_hit footnoteRegex footnoteRegex_bounds _ _ _
             (footnoteRegex_decimal n rest)).
  rewrite firstn_app, firstn_all, Nat.sub_diag, app_nil_r.
  rewrite skipn_app, skipn_all, Nat.sub_diag. reflexivity.
Qed.

Lemma correct_frames (p : jsstring) :
  forall st, exists u t t',
    p = u ++ t
    /\ render nextMarker st (scan footnoteRegex p) = u ++ t'
    /\ breaks t /\ breaks t'.
Proof.
  induction p as [| c s Hc IH | s n g Hs IH]
    using (scan_ind footnoteRegex footnoteRegex_bounds); intros st.
  - exists [], [], []. repeat split.
  - destruct (IH st) as (u & t & t' & Hp & Hr & Ht & Ht').
    exists (c :: u), t, t'.
    rewrite (scan_miss _ _ _ Hc). cbn [render app]. rewrite Hr, Hp.
    repeat split; assumption.
  - exists [], s, (render nextMarker st (scan footnoteRegex s)).
    rewrite (scan_hit _ footnoteRegex_bounds _ _ _ Hs).
    apply footnoteRegex_inv in Hs as (Hs & _).
    repeat split. rewrite Hs. reflexivity.
Qed.

Lemma correct_scan (p : jsstring) :
  forall st,
    scan footnoteRegex (render nextMarker st (scan footnoteRegex p))
    = relabel st (scan footnoteRegex p).
Proof.
  induction p as [| c s Hc IH | s n g Hs IH]
    using (scan_ind footnoteRegex footnoteRegex_bounds); intros st.
  - reflexivity.
  - rewrite (scan_miss _ _ _ Hc). cbn [render relabel].
    destruct (correct_frames s st) as (u & t & t' & Hp & Hr & Ht & Ht').
    assert (Hnone : footnoteRegex
                      (c :: render nextMarker st (scan footnoteRegex s))
                    = None).
    { rewrite Hr. change (c :: u ++ t') with ((c :: u) ++ t').
      rewrite footnoteRegex_local by (discriminate || assumption).
      rewrite <- (footnoteRegex_local (c :: u) t) by
          (discriminate || assumption).
      cbn [app]. now rewrite <- Hp. }
    rewrite (scan_miss _ _ _ Hnone). now rewrite IH.
  - rewrite (scan_hit _ footnoteRegex_bounds _ _ _ Hs).
    cbn [render relabel nextMarker]. rewrite scan_marker. now rewrite IH.
Qed.

Lemma captures_relabel (ps : list piece) :
  forall st,
    captures (relabel st ps) = map decimal (seq (S st) (length (captures ps))).
Proof.
  induction ps as [|[c|m g] ps IH]; intros st; cbn; [reflexivity|apply IH|].
  now rewrite IH.
Qed.




Lemma footnoteRegex_other (c : char16) (s : jsstring) :
  (c =? LBRACKET)%N = false -> footnoteRegex (c :: s) = None.
Proof.
  intros H. unfold footnoteRegex. destruct s; [reflexivity|]. now rewrite H.
Qed.

Lemma scan_no_bracket (s : jsstring) :
  ~ In LBRACKET s -> captures (scan footnoteRegex s) = [].
Proof.
  induction s as [|c s IH]; intros H; [reflexivity|].
  rewrite scan_miss.
  - cbn [captures]. apply IH. intros Hin. apply H. now right.
  - apply footnoteRegex_other. apply N.eqb_neq. intros ->. apply H. now left.
Qed.

(** ** Trimming *)

Lemma trimStart_head (s : jsstring) : stops is_space (trimStart s).
Proof.
  induction s as [|c s IH]; [exact I|]. cbn [trimStart].
  destruct (is_space c) eqn:E; [exact IH|exact E].
Qed.

Lemma trimStart_app_keep (x r : jsstring) (c : char16) :
  is_space c = false -> trimStart (x ++ c :: r) = trimStart x ++ c :: r.
Proof.
  intros Hc. induction x as [|d x IH]; cbn.
  - now rewrite Hc.
  - destruct (is_space d); [exact IH|reflexivity].
Qed.

Lemma trimEnd_app_keep (x r : jsstring) (c : char16) :
  is_space c = false -> trimEnd (x ++ c :: r) = x ++ c :: trimEnd r.
Proof.
  intros Hc. unfold trimEnd.
  rewrite rev_app_distr. cbn [List.rev]. rewrite <- app_assoc. cbn [app].
  rewrite trimStart_app_keep by exact Hc.
  rewrite rev_app_distr. cbn [List.rev]. rewrite rev_involutive.
  rewrite <- app_assoc. reflexivity.
Qed.

Lemma trimEnd_snoc_space (r : jsstring) (c : char16) :
  is_space c = true -> trimEnd (r ++ [c]) = trimEnd r.
Proof.
  intros Hc. unfold trimEnd. rewrite rev_app_distr. cbn. now rewrite Hc.
Qed.

Lemma trimEnd_whole (s : jsstring) :
  stops is_space (List.rev s) -> trimEnd s = s.
Proof.
  unfold trimEnd. intros Hstop.
  destruct (List.rev s) as [|c r] eqn:E.
  - apply (f_equal (@List.rev _)) in E. now rewrite rev_involutive in E.
  - cbn [trimStart]. cbn [stops] in Hstop. rewrite Hstop, <- E.
    apply rev_involutive.
Qed.

Lemma trimStart_spec (s : jsstring) :
  exists ws, s = ws ++ trimStart s /\ forallb is_space ws = true.
Proof.
  induction s as [|c s IH]; [now exists []|]. cbn [trimStart].
  destruct (is_space c) eqn:E; [|now exists []].
  destruct IH as (ws & Hs & Hws). exists (c :: ws). cbn [app forallb].
  rewrite E, Hws. split; [now rewrite <- Hs|reflexivity].
Qed.

(** [trimEnd] takes a run of white space off the end, the whole of it. *)
Lemma trimEnd_spec (s : jsstring) :
  exists ws,
    s = trimEnd s ++ ws /\ forallb is_space ws = true
    /\ stops is_space (List.rev (trimEnd s)).
Proof.
  unfold trimEnd. destruct (trimStart_spec (List.rev s)) as (ws & Hs & Hws).
  exists (List.rev ws). split; [|split].
  - rewrite <- rev_app_distr, <- Hs. now rewrite rev_involutive.
  - rewrite forallb_forall in Hws |- *. intros c Hc. apply Hws.
    now apply in_rev.
  - rewrite rev_involutive. apply trimStart_head.
Qed.

Lemma trim_no_outer_space (s : jsstring) : no_outer_space (trim s).
Proof.
  unfold no_outer_space, trim. split.
  - pose proof (trimStart_head s) as H.
    destruct (trimStart s) as [|c r]; [exact I|]. cbn in H.
    pose proof (trimEnd_app_keep [] r c H) as Hk. cbn [app] in Hk.
    rewrite Hk. exact H.
  - unfold trimEnd. rewrite rev_involutive. apply trimStart_head.
Qed.

Lemma trim_frame (x r : jsstring) (c : char16) :
  is_space c = false ->
  trim (x ++ c :: r) = trimStart x ++ c :: trimEnd r.
Proof.
  intros Hc. unfold trim.
  rewrite trimStart_app_keep by exact Hc.
  now rewrite trimEnd_app_keep.
Qed.



(** ** The shape of the reconciler's result *)

Lemma needsCorrection_nil (n : nat) : n <> 0 -> needsCorrection [] n = false.
Proof.
  intros H. unfold needsCorrection. cbn.
  destruct n; [contradiction|]. cbn. now destruct (N.of_nat (S n)).
Qed.

Section ReconcilerFacts.

Variable uL uN : N -> bool.
Variable uh : jsstring -> option jsstring.

Local Set Warnings "-notation-for-abbreviation".
Local Notation build := (buildMdFromAnswer uL uN uh).
Local Notation fmtRef := (formatReference uL uN uh).
Local Notation fmtLines := (formatLines uL uN uh).
Local Notation fmtRefs := (formatReferences uL uN uh).
Local Notation clean := (cleanQuote uL uN).

Lemma formatReference_head (i : nat) (ref : Reference) (l : jsstring) :
  fmtRef i ref = Ok l ->
  exists rest,
    l = marker (decimal (i + 1)) ++ lit ": " ++ clean (exactQuote ref) ++ rest.
Proof.
  unfold formatReference. intros H.
  destruct (url ref) as [u|].
  - destruct (negb (startsWith u (lit "http"))).
    + injection H as <-. exists []. now rewrite app_nil_r.
    + destruct (uh u) as [h|]; [|discriminate].
      injection H as <-.
      exists (lit " [" ++ domainName h ++ lit "](" ++ u ++ lit ")").
      unfold marker. rewrite <- !app_assoc. reflexivity.
  - injection H as <-. exists []. now rewrite app_nil_r.
Qed.

Lemma formatLines_nth (refs : list Reference) :
  forall i lines,
    fmtLines i refs = Ok lines ->
    length lines = length refs
    /\ forall j ref, nth_error refs j = Some ref ->
         exists l, nth_error lines j = Some l /\ fmtRef (i + j) ref = Ok l.
Proof.
  induction refs as [|r refs IH]; intros i lines H.
  - injection H as <-. split; [reflexivity|]. intros [|j] ref Hj; discriminate.
  - cbn [formatLines] in H. unfold bind in H.
    destruct (fmtRef i r) as [l|e] eqn:El; [|discriminate].
    destruct (fmtLines (S i) refs) as [ls|e] eqn:Els; [|discriminate].
    injection H as <-. destruct (IH _ _ Els) as [Hlen Hnth].
    split; [simpl; now rewrite Hlen|].
    intros [|j] ref Hj.
    + injection Hj as <-. exists l. rewrite Nat.add_0_r. now split.
    + destruct (Hnth j ref Hj) as (l' & Hl' & Hf). exists l'.
      split; [exact Hl'|]. now rewrite Nat.add_succ_r.
Qed.

Lemma join_head (sep : jsstring) (c : char16) (l : jsstring)
    (ls : list jsstring) :
  exists b, join sep ((c :: l) :: ls) = c :: b.
Proof. destruct ls; cbn; eexists; reflexivity. Qed.

Lemma formatReferences_head (refs : list Reference) (block : jsstring) :
  refs <> [] -> fmtRefs refs = Ok block -> exists b, block = LBRACKET :: b.
Proof.
  intros Hne H. unfold formatReferences, bind in H.
  destruct (fmtLines 0 refs) as [lines|e] eqn:E; [|discriminate].
  injection H as <-.
  destruct refs as [|r refs]; [contradiction|].
  cbn [formatLines] in E. unfold bind in E.
  destruct (fmtRef 0 r) as [l|e] eqn:El; [|discriminate].
  destruct (fmtLines 1 refs) as [ls|e]; [|discriminate].
  injection E as <-.
  apply formatReference_head in El as [rest ->].
  apply join_head.
Qed.

Lemma build_shape (a : AnswerAction) :
  references a <> [] ->
  build a =
    (refsText <- fmtRefs (references a) ;;
     Ok (trim ([NL] ++ textPart a ++ markerLine a ++ [NL; NL]
               ++ refsText ++ [NL]))).
Proof.
  intros Hne. unfold buildMdFromAnswer, textPart, markerLine.
  assert (Hlen : length (references a) <> 0).
  { destruct (references a); [contradiction|discriminate]. }
  apply Nat.eqb_neq in Hlen as Hlen'. rewrite Hlen'.
  set (p := processAnswer (answer a)).
  set (fn := findFootnotes p).
  destruct (length fn =? 0)%nat eqn:Efn.
  - apply Nat.eqb_eq in Efn. destruct fn; [|discriminate].
    rewrite needsCorrection_nil by exact Hlen.
    unfold bind. destruct (fmtRefs (references a)); [|reflexivity].
    now rewrite <- !app_assoc.
  - destruct (needsCorrection fn (length (references a))).
    + rewrite andb_false_r. cbn [negb]. reflexivity.
    + rewrite andb_true_r. cbn [negb].
      destruct (length fn <? length (references a))%nat; [|reflexivity].
      unfold bind. destruct (fmtRefs (references a)); [|reflexivity].
      now rewrite <- !app_assoc.
Qed.

End ReconcilerFacts.

Lemma correctAnswer_scan (p : jsstring) :
  scan footnoteRegex (correctAnswer p) = relabel 0 (scan footnoteRegex p).
Proof. exact (correct_scan p 0). Qed.

Lemma correctAnswer_footnotes (p : jsstring) :
  findFootnotes (correctAnswer p)
  = map decimal (seq 1 (length (findFootnotes p))).
Proof.
  unfold findFootnotes. rewrite correctAnswer_scan. apply captures_relabel.
Qed.

Lemma trimEnd_block (b : jsstring) :
  trimEnd (LBRACKET :: b) = LBRACKET :: trimEnd b.
Proof. exact (trimEnd_app_keep [] b LBRACKET eq_refl). Qed.

Lemma trim_template (body line b : jsstring) :
  trim ([NL] ++ body ++ line ++ [NL; NL] ++ (LBRACKET :: b) ++ [NL])
  = trimStart (body ++ line ++ [NL; NL]) ++ trimEnd (LBRACKET :: b).
Proof.
  replace ([NL] ++ body ++ line ++ [NL; NL] ++ (LBRACKET :: b) ++ [NL])
    with ((NL :: body ++ line ++ [NL; NL]) ++ LBRACKET :: (b ++ [NL])).
  - rewrite trim_frame by reflexivity.
    rewrite trimEnd_snoc_space by reflexivity.
    rewrite trimEnd_block. reflexivity.
  - cbn [app]. rewrite <- !app_assoc. reflexivity.
Qed.

Section ReconcilerResult.

Variable uL uN : N -> bool.
Variable uh : jsstring -> option jsstring.

Lemma build_ok (a : AnswerAction) (block : jsstring) :
  references a <> [] ->
  formatReferences uL uN uh (references a) = Ok block ->
  buildMdFromAnswer uL uN uh a
  = Ok (trimStart (textPart a ++ markerLine a ++ [NL; NL]) ++ trimEnd block).
Proof.
  intros Hne Hb. rewrite build_shape by exact Hne. rewrite Hb. cbn [bind].
  destruct (formatReferences_head uL uN uh _ _ Hne Hb) as [b ->].
  now rewrite trim_template.
Qed.

Lemma build_throw (a : AnswerAction) (e : error) :
  references a <> [] ->
  formatReferences uL uN uh (references a) = Throw e ->
  buildMdFromAnswer uL uN uh a = Throw e.
Proof.
  intros Hne Hb. rewrite build_shape by exact Hne. now rewrite Hb.
Qed.

Lemma build_ok_inv (a : AnswerAction) (out : jsstring) :
  references a <> [] ->
  buildMdFromAnswer uL uN uh a = Ok out ->
  exists block,
    formatReferences uL uN uh (references a) = Ok block
    /\ out = trim ([NL] ++ textPart a ++ markerLine a ++ [NL; NL]
                   ++ block ++ [NL]).
Proof.
  intros Hne H. rewrite build_shape in H by exact Hne.
  destruct (formatReferences uL uN uh (references a)) as [block|e];
    [|discriminate].
  cbn [bind] in H. injection H as <-. now exists block.
Qed.

End ReconcilerResult.

(** ** The reconciler: renumbering, marker line, trimming *)

Section ReconcilerProperties.

Variable uL uN : N -> bool.
Variable uh : jsstring -> option jsstring.


Lemma scan_tabulate (f : nat -> bool) (n start : nat) :
  captures
    (scan footnoteRegex
       (concat (map (fun i => if f i then marker (decimal (i + 1)) else [])
                    (seq start n))))
  = map (fun i => decimal (i + 1)) (filter f (seq start n)).
Proof.
  revert start; induction n as [|n IH]; intros start; [reflexivity|].
  cbn [seq map concat filter]. destruct (f start).
  - rewrite scan_marker. cbn [captures map]. now rewrite IH.
  - cbn [app]. apply IH.
Qed.

(** C5, as amended.  With references and a text without markers, the
    result ends with the line made of the glyph and the markers
    [^1] ... [^len], nothing between them, then a blank line, then the
    reference block without the white space at its end: the final trim
    takes it off, and the block is whole when it does not end with white
    space.  The line is the first of the result or comes after a blank
    line. *)
Theorem C5_no_markers_appends_all (a : AnswerAction) (block : jsstring) :
  let processedAnswer := processAnswer (answer a) in
  let n := length (references a) in
  let appendedCitations := tabulate n (fun i => marker (decimal (i + 1))) in
  references a <> [] ->
  findFootnotes processedAnswer = [] ->
  formatReferences uL uN uh (references a) = Ok block ->
  buildMdFromAnswer uL uN uh a
  = Ok (trimStart (processedAnswer ++ [NL; NL])
        ++ [DOTTED_CROSS] ++ appendedCitations ++ [NL; NL] ++ trimEnd block)
  /\ findFootnotes appendedCitations = map decimal (seq 1 n)
  /\ (trimStart (processedAnswer ++ [NL; NL]) = []
      \/ exists t, trimStart (processedAnswer ++ [NL; NL]) = t ++ [NL; NL])
  /\ (stops is_space (List.rev block) -> trimEnd block = block)
  /\ exists ws,
       block = trimEnd block ++ ws /\ forallb is_space ws = true
       /\ stops is_space (List.rev (trimEnd block)).
Proof.
  intros p n cites Hne Hfn Hb.
  split; [|split; [|split; [|split; [apply trimEnd_whole|apply trimEnd_spec]]]].
  - rewrite (build_ok uL uN uh a block Hne Hb). f_equal.
    assert (Htext : textPart a = p).
    { unfold textPart. fold p. rewrite Hfn. rewrite needsCorrection_nil.
      - reflexivity.
      - destruct (references a); [contradiction|discriminate]. }
    assert (Hline : markerLine a = [NL; NL; DOTTED_CROSS] ++ cites).
    { unfold markerLine. fold p. now rewrite Hfn. }
    rewrite Htext, Hline.
    replace (p ++ ([NL; NL; DOTTED_CROSS] ++ cites) ++ [NL; NL])
      with ((p ++ [NL; NL]) ++ DOTTED_CROSS :: (cites ++ [NL; NL])).
    + rewrite trimStart_app_keep by reflexivity.
      rewrite <- !app_assoc. cbn [app]. rewrite <- !app_assoc. reflexivity.
    + rewrite <- !app_assoc. reflexivity.
  - unfold findFootnotes, cites, tabulate.
    rewrite (scan_tabulate (fun _ => true) n 0).
    assert (Hf : forall l : list nat, filter (fun _ => true) l = l).
    { induction l as [|x l IH]; [reflexivity|]. cbn. now rewrite IH. }
    rewrite Hf. rewrite <- seq_shift, map_map. apply map_ext.
    intros i. now rewrite Nat.add_1_r.
  - clearbody p. clear. induction p as [|c p IH].
    + left. reflexivity.
    + cbn [app trimStart]. destruct (is_space c); [exact IH|].
      right. now exists (c :: p).
Qed.

(** C8, as amended.  When there are references, the returned string neither
    begins nor ends with white space.  Without references the characters of
    the processed text outside its markers are returned as they are, white
    space at either end included. *)
Theorem C8_trimmed_with_references (a : AnswerAction) :
  (forall out : jsstring,
      references a <> [] ->
      buildMdFromAnswer uL uN uh a = Ok out ->
      no_outer_space out)
  /\ (references a = [] ->
      buildMdFromAnswer uL uN uh a
      = Ok (literals (scan footnoteRegex (processAnswer (answer a))))).
Proof.
  split.
  - intros out Hne H.
    destruct (build_ok_inv uL uN uh a out Hne H) as (block & _ & ->).
    apply trim_no_outer_space.
  - intros Hrefs. unfold buildMdFromAnswer. rewrite Hrefs.
    cbn [length Nat.eqb]. now rewrite replace_empty_literals.
Qed.

End ReconcilerProperties.


Lemma C5_no_markers_appends_all_witness :
  references no_markers <> []
  /\ findFootnotes (processAnswer (answer no_markers)) = []
  /\ run no_markers
     = Ok (lit "hello" ++ [NL; NL; DOTTED_CROSS] ++ lit "[^1][^2]"
           ++ [NL; NL] ++ lit "[^1]: Hello world " ++ [NL; NL]
           ++ lit "[^2]: b [example.com](https://www.example.com/a)").
Proof.
  split; [discriminate|]. split; [reflexivity|].
  assert (Hne : references no_markers <> []) by discriminate.
  destruct (C5_no_markers_appends_all no_unicode no_unicode sample_hostname
              no_markers _ Hne eq_refl eq_refl) as [Hrun _].
  exact Hrun.
Defined.

Lemma C8_trimmed_with_references_witness :
  references no_markers <> []
  /\ (exists out, run no_markers = Ok out /\ no_outer_space out)
  /\ references padded_no_refs = []
  /\ run padded_no_refs = Ok (lit " x ").
Proof.
  assert (Hne : references no_markers <> []) by discriminate.
  split; [exact Hne|]. split.
  - eexists. split; [reflexivity|].
    exact (proj1 (C8_trimmed_with_references no_unicode no_unicode
                    sample_hostname no_markers) _ Hne eq_refl).
  - split; [reflexivity|].
    exact (proj2 (C8_trimmed_with_references no_unicode no_unicode
                    sample_hostname padded_no_refs) eq_refl).
Defined.


(** C5, as stated, fails: a block that ends with white space is not
    returned whole, and the result does not end with it. *)
Lemma C5_counterexample :
  ~ (forall (a : AnswerAction) (block out : jsstring),
        references a <> [] ->
        findFootnotes (processAnswer (answer a)) = [] ->
        formatReferences no_unicode no_unicode sample_hostname (references a)
        = Ok block ->
        run a = Ok out ->
        exists text, out = text ++ block).
Proof.
  intros H.
  assert (Hne : references quote_with_stop <> []) by discriminate.
  destruct (H quote_with_stop _ _ Hne eq_refl eq_refl eq_refl) as [text E].
  apply (f_equal (@List.rev _)) in E.
  rewrite rev_app_distr in E. cbn in E. discriminate E.
Qed.

(** C8, as stated, fails for the empty reference list: the text is returned
    as it is. *)
Lemma C8_counterexample :
  ~ (forall (a : AnswerAction) (out : jsstring),
        run a = Ok out -> no_outer_space out).
Proof.
  intros H. destruct (H padded_no_refs (lit " x ") eq_refl) as [Hhead _].
  discriminate Hhead.
Qed.

(** ** Numbers and their text *)

Lemma parseInt_uint (d : Decimal.uint) :
  forall acc : nat,
    fold_left (fun a c => (10 * a + (c - 48))%N) (uint_chars d) (N.of_nat acc)
    = N.of_nat (Nat.of_uint_acc d acc).
Proof.
  induction d; intros acc; [reflexivity|..];
    cbn [uint_chars fold_left Nat.of_uint_acc];
    rewrite <- IHd; f_equal; rewrite Nat.tail_mul_spec; lia.
Qed.

Lemma parseInt_decimal (n : nat) : parseInt (decimal n) = N.of_nat n.
Proof.
  unfold parseInt, decimal.
  pose proof (parseInt_uint (Nat.to_uint n) 0) as H.
  change (N.of_nat 0) with 0%N in H. rewrite H.
  f_equal. apply DecimalNat.Unsigned.of_to.
Qed.

(** ** Collapsing white space *)

Lemma spacesRegex_bounds (s : jsstring) (n : nat) (g : jsstring) :
  spacesRegex s = Some (n, g) -> 1 <= n <= length s.
Proof.
  unfold spacesRegex. pose proof (takeWhile_length is_space s) as H.
  destruct (takeWhile is_space s) as [|c w]; [discriminate|].
  intros E. injection E as <- <-. simpl in *. lia.
Qed.

Lemma collapseSpaces_run (r : jsstring) :
  collapseSpaces true r
  = collapseSpaces false (skipn (length (takeWhile is_space r)) r).
Proof.
  induction r as [|c r IH]; [reflexivity|].
  cbn [takeWhile collapseSpaces]. destruct (is_space c) eqn:E.
  - cbn [length skipn]. exact IH.
  - cbn [length skipn collapseSpaces]. now rewrite E.
Qed.

Lemma replace_spaces (s : jsstring) :
  replace spacesRegex (fun _ => [SPACE]) s = collapseSpaces false s.
Proof.
  unfold replace.
  induction s as [| c s Hc IH | s n g Hs IH]
    using (scan_ind spacesRegex spacesRegex_bounds).
  - reflexivity.
  - rewrite (scan_miss _ _ _ Hc). cbn [render collapseSpaces]. rewrite IH.
    unfold spacesRegex in Hc. cbn [takeWhile] in Hc.
    destruct (is_space c); [discriminate|reflexivity].
  - rewrite (scan_hit _ spacesRegex_bounds _ _ _ Hs). cbn [render app].
    rewrite IH. unfold spacesRegex in Hs.
    destruct s as [|c r]; [discriminate|]. cbn [takeWhile] in Hs.
    destruct (is_space c) eqn:E; [|discriminate].
    injection Hs as <- _. cbn [collapseSpaces length skipn]. rewrite E.
    now rewrite collapseSpaces_run.
Qed.

Lemma replaceFirst_absent (pat s : jsstring) :
  includes s pat = false -> replaceFirst pat [] s = s.
Proof.
  induction s as [|c s IH]; cbn [includes replaceFirst]; intros H;
    apply orb_false_iff in H as [H1 H2]; rewrite H1; [reflexivity|].
  now rewrite IH.
Qed.

(** ** The reference block *)

Section ReferenceBlock.

Variable uL uN : N -> bool.

Lemma formatReference_unlinked (parser : jsstring -> option jsstring)
    (i : nat) (ref : Reference) :
  unlinked ref -> formatReference uL uN parser i ref = Ok (citation uL uN i ref).
Proof.
  unfold formatReference, citation.
  intros [H|(u & H & Hu)]; rewrite H; [reflexivity|]. now rewrite Hu.
Qed.

Lemma formatLines_unlinked (parser : jsstring -> option jsstring)
    (refs : list Reference) :
  (forall ref, In ref refs -> unlinked ref) ->
  forall i, formatLines uL uN parser i refs = Ok (citationLines uL uN i refs).
Proof.
  induction refs as [|r refs IH]; intros H i; [reflexivity|].
  cbn [formatLines citationLines].
  rewrite formatReference_unlinked by (apply H; now left).
  cbn [bind]. rewrite IH by (intros ref Hin; apply H; now right).
  reflexivity.
Qed.

Variable uh : jsstring -> option jsstring.

Lemma formatReference_linked (i : nat) (ref : Reference) (u h : jsstring) :
  url ref = Some u -> startsWith u (lit "http") = true -> uh u = Some h ->
  formatReference uL uN uh i ref
  = Ok (citation uL uN i ref ++ lit " [" ++ domainName h ++ lit "](" ++ u
        ++ lit ")").
Proof.
  unfold formatReference, citation. intros -> -> ->. reflexivity.
Qed.

Lemma formatReference_throw (i : nat) (ref : Reference) (e : error) :
  formatReference uL uN uh i ref = Throw e ->
  exists u, e = InvalidURL u /\ url ref = Some u
            /\ startsWith u (lit "http") = true /\ uh u = None.
Proof.
  unfold formatReference. destruct (url ref) as [u|]; [|discriminate].
  destruct (startsWith u (lit "http")) eqn:E; [|discriminate]. cbn [negb].
  destruct (uh u) eqn:Eh; [discriminate|].
  intros H. injection H as <-. now exists u.
Qed.

Lemma formatLines_throw (refs : list Reference) (ref : Reference) (u : jsstring) :
  In ref refs -> url ref = Some u -> startsWith u (lit "http") = true ->
  uh u = None ->
  forall i, exists u',
    formatLines uL uN uh i refs = Throw (InvalidURL u')
    /\ startsWith u' (lit "http") = true /\ uh u' = None.
Proof.
  intros Hin Hu Hhttp Hnone.
  induction refs as [|r refs IH]; intros i; [contradiction|].
  cbn [formatLines].
  destruct (formatReference uL uN uh i r) as [l|e] eqn:E.
  - cbn [bind]. destruct Hin as [->|Hin].
    + unfold formatReference in E. rewrite Hu, Hhttp, Hnone in E.
      discriminate.
    + destruct (IH Hin (S i)) as (u' & -> & Hu'). exists u'. now split.
  - cbn [bind]. apply formatReference_throw in E as (u' & -> & _ & Hu').
    exists u'. now split.
Qed.

Lemma replaceNonWord_codePoints (q : jsstring) :
  replaceNonWord uL uN q
  = flat_map (fun cp => if is_word uL uN (fst cp) then snd cp else [SPACE])
             (codePoints q)
  /\ concat (map snd (codePoints q)) = q.
Proof.
  remember (length q) as n eqn:Hn. revert q Hn.
  induction n as [n IH] using lt_wf_ind. intros q Hn.
  destruct q as [|c [|d q]]; [now split| |].
  - cbn [replaceNonWord codePoints flat_map map concat fst snd app].
    split; [now destruct (is_word uL uN c)|reflexivity].
  - assert (Hr : replaceNonWord uL uN (c :: d :: q)
                 = if is_high_surrogate c && is_low_surrogate d then
                     if is_word uL uN (code_point c d)
                     then c :: d :: replaceNonWord uL uN q
                     else SPACE :: replaceNonWord uL uN q
                   else (if is_word uL uN c then c else SPACE)
                        :: replaceNonWord uL uN (d :: q)) by reflexivity.
    assert (Hc : codePoints (c :: d :: q)
                 = if is_high_surrogate c && is_low_surrogate d
                   then (code_point c d, [c; d]) :: codePoints q
                   else (c, [c]) :: codePoints (d :: q)) by reflexivity.
    rewrite Hr, Hc. clear Hr Hc.
    destruct (is_high_surrogate c && is_low_surrogate d).
    + destruct (IH (length q)) with (q := q) as [H1 H2];
        [subst n; cbn [length]; lia|reflexivity|].
      cbn [flat_map map concat fst snd]. rewrite <- H1, H2.
      split; [now destruct (is_word uL uN (code_point c d))|reflexivity].
    + destruct (IH (length (d :: q))) with (q := d :: q) as [H1 H2];
        [subst n; cbn [length]; lia|reflexivity|].
      cbn [flat_map map concat fst snd]. rewrite <- H1, H2.
      split; [now destruct (is_word uL uN c)|reflexivity].
Qed.

(** C6, as amended.  The line of the reference at position [i] is
    "[^i+1]: " and the cleaned quote: every code point that is no letter,
    number or white space becomes a space, a surrogate pair counting as one
    code point and kept whole when it is a letter or a number, and then
    every run of white space becomes one space, so that "Hello, world!!"
    gives "Hello world " with the space at its end.  When the url begins
    with "http" and has the host name [h], the line goes on with " [d](url)"
    where [d] is [h] without its leading "www." when [h] begins with it, and
    [h] when "www." is nowhere in it. *)
Theorem C6_reference_line (i : nat) (ref : Reference) :
  cleanQuote uL uN (exactQuote ref)
  = collapseSpaces false (replaceNonWord uL uN (exactQuote ref))
  /\ replaceNonWord uL uN (exactQuote ref)
     = flat_map (fun cp => if is_word uL uN (fst cp) then snd cp else [SPACE])
                (codePoints (exactQuote ref))
  /\ concat (map snd (codePoints (exactQuote ref))) = exactQuote ref
  /\ (uL 0x20000%N = true ->
      cleanQuote uL uN [0xD840; 0xDC00]%N = [0xD840; 0xDC00]%N)
  /\ (forallb (fun c => negb (is_high_surrogate c)) (exactQuote ref) = true ->
      replaceNonWord uL uN (exactQuote ref)
      = map (fun c => if is_word uL uN c then c else SPACE) (exactQuote ref))
  /\ cleanQuote uL uN (lit "Hello, world!!") = lit "Hello world "
  /\ (unlinked ref ->
      formatReference uL uN uh i ref = Ok (citation uL uN i ref))
  /\ (forall u h : jsstring,
         url ref = Some u -> startsWith u (lit "http") = true ->
         uh u = Some h ->
         formatReference uL uN uh i ref
         = Ok (citation uL uN i ref ++ lit " [" ++ domainName h ++ lit "](" ++ u
               ++ lit ")")
         /\ (forall h', h = lit "www." ++ h' -> domainName h = h')
         /\ (includes h (lit "www.") = false -> domainName h = h)).
Proof.
  split; [apply replace_spaces|].
  split; [apply replaceNonWord_codePoints|].
  split; [apply replaceNonWord_codePoints|].
  split.
  { intros HL. unfold cleanQuote. rewrite replace_spaces.
    cbn [replaceNonWord].
    change (is_high_surrogate 0xD840%N && is_low_surrogate 0xDC00%N)
      with true.
    change (code_point 0xD840%N 0xDC00%N) with 0x20000%N. cbn iota.
    unfold is_word, is_letter. change (0x20000 <? 128)%N with false.
    cbn iota. rewrite HL. reflexivity. }
  split.
  { generalize (exactQuote ref) as q.
    induction q as [|c q IH]; intros H; [reflexivity|].
    cbn [forallb] in H. apply andb_true_iff in H as [Hc Hq].
    apply negb_true_iff in Hc. specialize (IH Hq).
    cbn [replaceNonWord map]. destruct q as [|d q].
    - reflexivity.
    - rewrite Hc. cbn [andb]. now rewrite IH. }
  split; [reflexivity|].
  split; [apply formatReference_unlinked|].
  intros u h Hu Hhttp Hh.
  split; [now apply formatReference_linked|].
  split.
  - intros h' ->. reflexivity.
  - apply replaceFirst_absent.
Qed.

(** C7. A reference whose url begins with "http" and is refused by the URL
    parser makes the reconciler throw the parser's error, for a url of that
    kind.  The line of a reference whose url is absent or does not begin
    with "http" is the citation alone, whatever the URL parser would do: the
    parser is not run on it.  When every reference is of that kind the
    reconciler returns, and returns the same with any URL parser. *)
Theorem C7_url_errors (a : AnswerAction) :
  (forall (ref : Reference) (u : jsstring),
      In ref (references a) ->
      url ref = Some u -> startsWith u (lit "http") = true -> uh u = None ->
      exists u',
        buildMdFromAnswer uL uN uh a = Throw (InvalidURL u')
        /\ startsWith u' (lit "http") = true /\ uh u' = None)
  /\ (forall (i : nat) (ref : Reference)
             (parser : jsstring -> option jsstring),
         unlinked ref ->
         formatReference uL uN parser i ref = Ok (citation uL uN i ref))
  /\ ((forall ref, In ref (references a) -> unlinked ref) ->
      exists out,
        forall parser : jsstring -> option jsstring,
          buildMdFromAnswer uL uN parser a = Ok out).
Proof.
  split; [|split].
  - intros ref u Hin Hu Hhttp Hnone.
    destruct (formatLines_throw _ _ _ Hin Hu Hhttp Hnone 0)
      as (u' & Hthrow & Hu').
    exists u'. split; [|exact Hu'].
    apply build_throw.
    + intros E. rewrite E in Hin. contradiction.
    + unfold formatReferences. now rewrite Hthrow.
  - intros i ref parser. apply formatReference_unlinked.
  - intros Hall. destruct (references a) as [|r refs] eqn:E.
    + eexists. intros parser. unfold buildMdFromAnswer. rewrite E.
      reflexivity.
    + exists (trimStart (textPart a ++ markerLine a ++ [NL; NL])
              ++ trimEnd (join [NL; NL] (citationLines uL uN 0 (r :: refs)))).
      intros parser.
      apply build_ok; [rewrite E; discriminate|].
      unfold formatReferences. rewrite E.
      rewrite formatLines_unlinked; [reflexivity|exact Hall].
Qed.

End ReferenceBlock.

(** ** The fuel of the grouped expression *)

Lemma groupItem_progress (s : jsstring) (n : nat) :
  groupItem s = Some n -> 1 <= n /\ s <> [].
Proof.
  unfold groupItem. destruct s as [|c r]; [discriminate|].
  destruct (skipn _ r) as [|c2 r2]; [discriminate|].
  match goal with |- (if ?b then _ else _) = _ -> _ => destruct b end;
    [|discriminate].
  intros H. injection H as <-. split; [lia|discriminate].
Qed.

(** Any fuel from the length of the input on gives the same rounds. *)
Lemma groupItems_fuel (fuel : nat) :
  forall (s : jsstring) (fuel' : nat),
    length s <= fuel -> length s <= fuel' ->
    groupItems fuel s = groupItems fuel' s.
Proof.
  induction fuel as [|fuel IH]; intros s fuel' H H'.
  - destruct s; [|simpl in H; lia]. now destruct fuel'.
  - cbn [groupItems]. destruct (groupItem s) as [n|] eqn:E.
    + destruct (groupItem_progress _ _ E) as [Hn Hs].
      destruct s as [|c s]; [contradiction|].
      destruct fuel' as [|fuel']; [simpl in H'; lia|].
      cbn [groupItems]. rewrite E. f_equal.
      assert (length (skipn n (c :: s)) <= length s).
      { rewrite length_skipn. cbn [length]. lia. }
      simpl in H, H'. apply IH; lia.
    + destruct fuel'; cbn [groupItems]; [reflexivity|now rewrite E].
Qed.

(** ** The reconciler: markers and the reference block *)

Lemma scan_tabulate_after (pre : jsstring) (f : nat -> bool) (n : nat) :
  ~ In LBRACKET pre ->
  captures
    (scan footnoteRegex
       (pre ++ tabulate n (fun i => if f i then marker (decimal (i + 1))
                                    else [])))
  = map (fun i => decimal (i + 1)) (filter f (seq 0 n)).
Proof.
  intros Hpre. induction pre as [|c pre IH].
  - apply scan_tabulate.
  - cbn [app]. rewrite scan_miss.
    + cbn [captures]. apply IH. intros H. apply Hpre. now right.
    + apply footnoteRegex_other. apply N.eqb_neq. intros ->.
      apply Hpre. now left.
Qed.

Lemma markerLine_numbers (a : AnswerAction) :
  Forall (fun m => (1 <= m <= N.of_nat (length (references a)))%N)
         (markerNumbers (markerLine a)).
Proof.
  assert (Hgen : forall (pre : jsstring) (f : nat -> bool),
             ~ In LBRACKET pre ->
             Forall (fun m => (1 <= m <= N.of_nat (length (references a)))%N)
               (markerNumbers
                  (pre ++ tabulate (length (references a))
                            (fun i => if f i then marker (decimal (i + 1))
                                      else [])))).
  { intros pre f Hpre. unfold markerNumbers.
    rewrite (scan_tabulate_after pre f _ Hpre).
    apply Forall_forall. intros m Hm.
    apply in_map_iff in Hm as (d & <- & Hd).
    apply in_map_iff in Hd as (i & <- & Hi).
    apply filter_In in Hi as [Hi _]. apply in_seq in Hi.
    rewrite parseInt_decimal. lia. }
  unfold markerLine.
  destruct (length _ =? 0)%nat.
  - apply (Hgen [NL; NL; DOTTED_CROSS] (fun _ => true)).
    intros [H|[H|[H|[]]]]; discriminate.
  - destruct (_ && _).
    + apply (Hgen [SPACE; NL; NL; DOTTED_CROSS]).
      intros [H|[H|[H|[H|[]]]]]; discriminate.
    + constructor.
Qed.

(** ** Removing the markers: what can close up *)

Lemma literals_miss (c : char16) (s : jsstring) :
  footnoteRegex (c :: s) = None ->
  literals (scan footnoteRegex (c :: s))
  = c :: literals (scan footnoteRegex s).
Proof. intros H. now rewrite (scan_miss _ _ _ H). Qed.

Lemma literals_plain (d rest : jsstring) :
  ~ In LBRACKET d ->
  literals (scan footnoteRegex (d ++ rest))
  = d ++ literals (scan footnoteRegex rest).
Proof.
  induction d as [|c d IH]; intros H; [reflexivity|]. cbn [app].
  rewrite literals_miss.
  - f_equal. apply IH. intros Hin. apply H. now right.
  - apply footnoteRegex_other. apply N.eqb_neq. intros ->. apply H. now left.
Qed.

Lemma digits_no_bracket (d : jsstring) :
  forallb is_digit d = true -> ~ In LBRACKET d.
Proof.
  intros Hd Hin. rewrite forallb_forall in Hd. apply Hd in Hin.
  discriminate Hin.
Qed.

Lemma literals_no_hit (s : jsstring) :
  captures (scan footnoteRegex s) = [] -> literals (scan footnoteRegex s) = s.
Proof.
  induction s as [| c s Hc IH | s n g Hs IH]
    using (scan_ind footnoteRegex footnoteRegex_bounds).
  - reflexivity.
  - rewrite (scan_miss _ _ _ Hc). cbn [captures literals]. intros H.
    now rewrite IH.
  - rewrite (scan_hit _ footnoteRegex_bounds _ _ _ Hs). discriminate.
Qed.

Lemma startsWithMarker_false (s : jsstring) :
  startsWithMarker s = false -> footnoteRegex s = None.
Proof.
  unfold startsWithMarker. destruct (footnoteRegex s); [discriminate|].
  reflexivity.
Qed.

(** What is kept after an opening bracket completes a marker only if the
    text did, unless a marker was taken out right after the unfinished
    one. *)
Lemma close_up (s : jsstring) :
  footnoteRegex (LBRACKET :: s) = None ->
  gluedAt (LBRACKET :: s) = false ->
  footnoteRegex (LBRACKET :: literals (scan footnoteRegex s)) = None.
Proof.
  intros Hmiss Hglued. destruct s as [|c2 r1]; [reflexivity|].
  cbn [gluedAt] in Hglued. rewrite N.eqb_refl in Hglued.
  cbn [andb] in Hglued. apply orb_false_iff in Hglued as [Hhead Hafter].
  apply startsWithMarker_false in Hhead. rewrite (literals_miss _ _ Hhead).
  destruct (c2 =? CARET)%N eqn:Ecaret.
  - cbn [andb] in Hafter. apply startsWithMarker_false in Hafter.
    pose proof (takeWhile_skipn is_digit r1) as Hr1.
    pose proof (takeWhile_all is_digit r1) as Hd.
    pose proof (takeWhile_stops is_digit r1) as Hstop.
    set (d := takeWhile is_digit r1) in *.
    set (rest := skipn (length d) r1) in *.
    assert (Hkept : literals (scan footnoteRegex r1)
                    = d ++ literals (scan footnoteRegex rest)).
    { rewrite <- Hr1 at 1. apply literals_plain.
      now apply digits_no_bracket. }
    assert (Hshape : stops is_digit (literals (scan footnoteRegex rest))
                     /\ startsWith (literals (scan footnoteRegex rest))
                          [RBRACKET]
                        = startsWith rest [RBRACKET]).
    { destruct rest as [|e rest']; [now split|].
      rewrite (literals_miss _ _ Hafter). split; [exact Hstop|reflexivity]. }
    destruct Hshape as [Hstop' Hclose]. rewrite Hkept.
    set (k := literals (scan footnoteRegex rest)) in *. clearbody k.
    unfold footnoteRegex in Hmiss |- *. fold d in Hmiss.
    rewrite (takeWhile_app is_digit d _ Hd Hstop').
    rewrite skipn_app, skipn_all, Nat.sub_diag. cbn [app skipn].
    rewrite Hclose. fold rest in Hmiss.
    destruct ((LBRACKET =? LBRACKET)%N && (c2 =? CARET)%N
              && negb (is_empty d) && startsWith rest [RBRACKET]);
      [discriminate|reflexivity].
  - unfold footnoteRegex. rewrite Ecaret, andb_false_r. reflexivity.
Qed.

Lemma glued_skipn (n : nat) :
  forall s, glued s = false -> glued (skipn n s) = false.
Proof.
  induction n as [|n IH]; intros s H; [exact H|].
  destruct s as [|c s]; [reflexivity|]. cbn [skipn]. apply IH.
  cbn [glued] in H. now apply orb_false_iff in H as [_ H].
Qed.

Lemma strip_no_marker (t : jsstring) :
  glued t = false ->
  findFootnotes (literals (scan footnoteRegex t)) = [].
Proof.
  unfold findFootnotes.
  induction t as [| c s Hc IH | s n g Hs IH]
    using (scan_ind footnoteRegex footnoteRegex_bounds); intros Hglued.
  - reflexivity.
  - cbn [glued] in Hglued. apply orb_false_iff in Hglued as [Hat Hrest].
    rewrite (literals_miss _ _ Hc).
    assert (Hnone : footnoteRegex (c :: literals (scan footnoteRegex s))
                    = None).
    { destruct (N.eqb_spec c LBRACKET) as [->|Hne].
      - now apply close_up.
      - apply footnoteRegex_other. now apply N.eqb_neq. }
    rewrite (scan_miss _ _ _ Hnone). cbn [captures]. now apply IH.
  - rewrite (scan_hit _ footnoteRegex_bounds _ _ _ Hs). cbn [literals].
    apply IH. now apply glued_skipn.
Qed.

Section ReconcilerMarkers.

Variable uL uN : N -> bool.
Variable uh : jsstring -> option jsstring.

(** C1, as amended.  With references, a result is the text part, the
    marker line if any, a blank line and the reference block, trimmed; the
    block has one line for each reference, in the order of the list, the
    line of position [i] beginning with "[^i+1]: ".  The markers of the
    marker line lie in 1..len.  The text part is the processed text as it
    was written unless correction is needed; then its markers are
    1, 2, ..., k for the k markers found, all of them in 1..len when k is
    at most len. *)
Theorem C1_block_and_markers (a : AnswerAction) (out : jsstring) :
  let processedAnswer := processAnswer (answer a) in
  let footnotes := findFootnotes processedAnswer in
  let n := length (references a) in
  let in_range := fun m : N => (1 <= m <= N.of_nat n)%N in
  references a <> [] ->
  buildMdFromAnswer uL uN uh a = Ok out ->
  exists lines,
    formatLines uL uN uh 0 (references a) = Ok lines
    /\ out = trimStart (textPart a ++ markerLine a ++ [NL; NL])
             ++ trimEnd (join [NL; NL] lines)
    /\ length lines = n
    /\ (forall i ref,
           nth_error (references a) i = Some ref ->
           exists rest,
             nth_error lines i = Some (citation uL uN i ref ++ rest))
    /\ Forall in_range (markerNumbers (markerLine a))
    /\ (needsCorrection footnotes n = false -> textPart a = processedAnswer)
    /\ (needsCorrection footnotes n = true ->
        markerNumbers (textPart a) = map N.of_nat (seq 1 (length footnotes))
        /\ (length footnotes <= n ->
            Forall in_range (markerNumbers (textPart a)))).
Proof.
  intros p fn n in_range Hne Hbuild.
  destruct (build_ok_inv uL uN uh a out Hne Hbuild) as (block & Hb & _).
  rewrite (build_ok uL uN uh a block Hne Hb) in Hbuild.
  injection Hbuild as <-.
  unfold formatReferences, bind in Hb.
  destruct (formatLines uL uN uh 0 (references a)) as [lines|e] eqn:El;
    [|discriminate].
  injection Hb as <-. exists lines.
  destruct (formatLines_nth uL uN uh _ _ _ El) as [Hlen Hnth].
  split; [reflexivity|]. split; [reflexivity|]. split; [exact Hlen|].
  split.
  { intros i ref Hi. destruct (Hnth i ref Hi) as (l & Hl & Hf).
    apply formatReference_head in Hf as [rest ->]. exists rest.
    rewrite Hl. unfold citation. now rewrite <- !app_assoc. }
  split; [apply markerLine_numbers|].
  unfold textPart. fold p. fold fn. fold n.
  split; intros Hneeds; rewrite Hneeds; [reflexivity|].
  assert (Hnum : markerNumbers (correctAnswer p)
                 = map N.of_nat (seq 1 (length fn))).
  { unfold markerNumbers.
    change (captures (scan footnoteRegex (correctAnswer p)))
      with (findFootnotes (correctAnswer p)).
    rewrite correctAnswer_footnotes, map_map.
    apply map_ext. intros k. apply parseInt_decimal. }
  split; [exact Hnum|].
  intros Hk. rewrite Hnum. apply Forall_forall. intros m Hm.
  apply in_map_iff in Hm as (k & <- & Hkin). apply in_seq in Hkin.
  unfold in_range. lia.
Qed.

(** C4, as amended.  Without references the result is the processed text
    (grouped markers rewritten into single ones, as "[^1, ^2]" into
    "[^1], [^2]") without the markers that one scan from the left finds in
    it: the characters outside these markers, in their order, not trimmed
    and with no reference block.  The result has no marker unless somewhere
    in the processed text a marker stands right after an unfinished one (an
    opening bracket, alone or with a caret and digits); a processed text
    without markers is returned as it is. *)
Theorem C4_no_references_strips (a : AnswerAction) :
  let processedAnswer := processAnswer (answer a) in
  let kept := literals (scan footnoteRegex processedAnswer) in
  references a = [] ->
  buildMdFromAnswer uL uN uh a = Ok kept
  /\ (glued processedAnswer = false -> findFootnotes kept = [])
  /\ (findFootnotes processedAnswer = [] -> kept = processedAnswer)
  /\ processAnswer (lit "[^1, ^2]") = lit "[^1], [^2]"
  /\ literals (scan footnoteRegex (lit "[^1], [^2]")) = lit ", ".
Proof.
  intros p kept Hrefs. split; [|split; [|split; [|split; reflexivity]]].
  - unfold buildMdFromAnswer. rewrite Hrefs. cbn [length Nat.eqb].
    now rewrite replace_empty_literals.
  - apply strip_no_marker.
  - apply literals_no_hit.
Qed.

End ReconcilerMarkers.

(** ** Witnesses and counterexamples on the sample inputs *)

(** C1, as stated, fails: in the default case a marker out of range is
    returned as it was written. *)
Lemma C1_counterexample :
  ~ (forall (a : AnswerAction) (out : jsstring),
        references a <> [] ->
        run a = Ok out ->
        Forall (fun m => (1 <= m <= N.of_nat (length (references a)))%N)
               (markerNumbers out)).
Proof.
  intros H.
  assert (Hne : references out_of_range <> []) by discriminate.
  pose proof (H out_of_range _ Hne eq_refl) as HF.
  rewrite Forall_forall in HF.
  assert (Hin : In 5%N (markerNumbers
                          (lit "a [^5] b [^1]" ++ [NL; NL] ++ lit "[^1]: q"
                           ++ [NL; NL] ++ lit "[^2]: b"))).
  { left. reflexivity. }
  apply HF in Hin. cbn in Hin. lia.
Qed.

Lemma C1_block_and_markers_witness :
  references three_same <> []
  /\ exists out,
       run three_same = Ok out
       /\ Forall (fun m => (1 <= m <= 3)%N)
                 (markerNumbers (textPart three_same)).
Proof.
  assert (Hne : references three_same <> []) by discriminate.
  split; [exact Hne|]. eexists. split; [reflexivity|].
  destruct (C1_block_and_markers no_unicode no_unicode sample_hostname
              three_same _ Hne eq_refl)
    as (lines & _ & _ & _ & _ & _ & _ & Hneeds).
  destruct (Hneeds eq_refl) as [_ Hrange].
  apply Hrange. cbn. lia.
Defined.

(** C4, as stated, fails: the text around a removed marker can close up
    into a marker. *)
Lemma C4_counterexample :
  ~ (forall (a : AnswerAction) (out : jsstring),
        references a = [] -> run a = Ok out -> findFootnotes out = []).
Proof.
  intros H. pose proof (H nested_marker (lit "[^2]") eq_refl eq_refl) as E.
  discriminate E.
Qed.

Lemma C4_no_references_strips_witness :
  references grouped_no_refs = []
  /\ run grouped_no_refs = Ok (lit "x ,  y")
  /\ references brackets_no_refs = []
  /\ glued (processAnswer (answer brackets_no_refs)) = false
  /\ run brackets_no_refs = Ok (lit "see [a](b) ,  [c]")
  /\ findFootnotes (lit "see [a](b) ,  [c]") = [].
Proof.
  split; [reflexivity|].
  split.
  { destruct (C4_no_references_strips no_unicode no_unicode sample_hostname
                grouped_no_refs eq_refl) as [Hrun _].
    exact Hrun. }
  split; [reflexivity|]. split; [reflexivity|].
  destruct (C4_no_references_strips no_unicode no_unicode sample_hostname
              brackets_no_refs eq_refl) as (Hrun & Hnone & _).
  split; [exact Hrun|exact (Hnone eq_refl)].
Defined.

(** C6, as stated, fails: the cleaned quote of "Hello, world!!" keeps the
    space that stands for its last punctuation, and "www." is taken out of
    a host name wherever it first occurs. *)
Lemma C6_counterexample :
  formatReference no_unicode no_unicode sample_hostname 0
    (plain "Hello, world!!")
  <> Ok (lit "[^1]: Hello world")
  /\ formatReference no_unicode no_unicode sample_hostname 0
       (linked "q" "https://mywww.example.com/a")
     = Ok (lit "[^1]: q [myexample.com](https://mywww.example.com/a)").
Proof. split; [discriminate|reflexivity]. Qed.

Lemma C6_reference_line_witness :
  one_letter 0x20000%N = true
  /\ cleanQuote one_letter no_unicode [0xD840; 0xDC00]%N
     = [0xD840; 0xDC00]%N
  /\ url (linked "Hello, world!!" "https://www.example.com/a")
  = Some (lit "https://www.example.com/a")
  /\ startsWith (lit "https://www.example.com/a") (lit "http") = true
  /\ sample_hostname (lit "https://www.example.com/a")
     = Some (lit "www.example.com")
  /\ formatReference no_unicode no_unicode sample_hostname 0
       (linked "Hello, world!!" "https://www.example.com/a")
     = Ok (lit "[^1]: Hello world  [example.com](https://www.example.com/a)")
  /\ formatReference no_unicode no_unicode sample_hostname 1 (plain "b")
     = Ok (lit "[^2]: b").
Proof.
  split; [reflexivity|].
  split.
  { destruct (C6_reference_line one_letter no_unicode sample_hostname 0
                (plain "b")) as (_ & _ & _ & Hpair & _).
    exact (Hpair eq_refl). }
  split; [reflexivity|]. split; [reflexivity|]. split; [reflexivity|].
  split.
  - destruct (C6_reference_line no_unicode no_unicode sample_hostname 0
                (linked "Hello, world!!" "https://www.example.com/a"))
      as (_ & _ & _ & _ & _ & _ & _ & Hlinked).
    destruct (Hlinked _ _ eq_refl eq_refl eq_refl) as [Hline _].
    exact Hline.
  - destruct (C6_reference_line no_unicode no_unicode sample_hostname 1
                (plain "b")) as (_ & _ & _ & _ & _ & _ & Hplain & _).
    apply Hplain. now left.
Defined.

Lemma C7_url_errors_witness :
  In (linked "b" "http") (references bad_url)
  /\ sample_hostname (lit "http") = None
  /\ (exists u', run bad_url = Throw (InvalidURL u'))
  /\ (forall ref, In ref (references other_scheme) -> unlinked ref)
  /\ formatReference no_unicode no_unicode (fun _ => None) 1
       (linked "b" "ftp://example.com/a")
     = Ok (lit "[^2]: b")
  /\ exists out,
       forall parser, buildMdFromAnswer no_unicode no_unicode parser
                        other_scheme = Ok out.
Proof.
  assert (Hin : In (linked "b" "http") (references bad_url))
    by (right; left; reflexivity).
  assert (Hother : unlinked (linked "b" "ftp://example.com/a")).
  { right. eexists. split; reflexivity. }
  assert (Hun : forall ref, In ref (references other_scheme) -> unlinked ref).
  { intros ref [<-|[<-|[]]]; [now left|exact Hother]. }
  split; [exact Hin|]. split; [reflexivity|].
  destruct (C7_url_errors no_unicode no_unicode sample_hostname bad_url)
    as [Hthrow _].
  destruct (C7_url_errors no_unicode no_unicode sample_hostname other_scheme)
    as (_ & Hline & Hok).
  split.
  - destruct (Hthrow _ _ Hin eq_refl eq_refl eq_refl) as (u' & Hrun & _).
    now exists u'.
  - split; [exact Hun|]. split; [exact (Hline 1 _ _ Hother)|exact (Hok Hun)].
Defined.

(** ** The fragment merger: what the merge contains *)

Lemma includes_refl (s : jsstring) : includes s s = true.
Proof. apply includes_app. exists [], []. now rewrite app_nil_r. Qed.

Lemma includes_nil (s : jsstring) : includes s [] = true.
Proof. apply includes_app. now exists [], s. Qed.

(** The merge of two strings none of which contains the other, by the
    overlap found. *)
Lemma merge_by_overlap (str1 str2 : jsstring) :
  str1 <> [] -> str2 <> [] ->
  includes str1 str2 = false -> includes str2 str1 = false ->
  exists L,
    L <= Nat.min (length str1) (length str2)
    /\ (forall L', overlap str1 str2 L' -> L' <= L)
    /\ skipn (length str1 - L) str1 = firstn L str2
    /\ smartMergeStrings str1 str2 = firstn (length str1 - L) str1 ++ str2
    /\ smartMergeStrings str1 str2 = str1 ++ skipn L str2.
Proof.
  intros H1 H2 H12 H21.
  pose proof (merge_uncontained _ _ H1 H2 H12 H21) as Hm. cbv zeta in Hm.
  set (m := Nat.min (length str1) (length str2)) in *.
  set (best := bestOverlap str1 str2 m) in *.
  assert (Hle : best <= m) by apply bestOverlap_le.
  assert (Hgreatest : forall L, overlap str1 str2 L -> L <= best).
  { intros L HL. apply bestOverlap_greatest; [unfold m; lia| |exact HL].
    destruct HL as [HL _]. fold m in HL. lia. }
  destruct (0 <? best)%nat eqn:E.
  - apply Nat.ltb_lt in E.
    destruct (bestOverlap_sound str1 str2 m (Nat.le_refl _) E) as [_ Hov].
    fold best in Hov.
    exists best.
    split; [exact Hle|]. split; [exact Hgreatest|]. split; [exact Hov|].
    split; [exact Hm|].
    rewrite Hm.
    transitivity ((firstn (length str1 - best) str1
                   ++ skipn (length str1 - best) str1) ++ skipn best str2);
      [|now rewrite firstn_skipn].
    rewrite Hov, <- app_assoc. now rewrite firstn_skipn.
  - apply Nat.ltb_ge in E. assert (Hb0 : best = 0) by lia.
    exists 0.
    split; [lia|]. split.
    { intros L' HL'. apply Hgreatest in HL'. lia. }
    split; [now rewrite Nat.sub_0_r, skipn_all|].
    split; [now rewrite Nat.sub_0_r, firstn_all|exact Hm].
Qed.

(** X1. The merge of two strings contains each of them as a substring. *)
Theorem X1_merge_contains_both (str1 str2 : jsstring) :
  includes (smartMergeStrings str1 str2) str1 = true
  /\ includes (smartMergeStrings str1 str2) str2 = true.
Proof.
  destruct (includes str1 str2) eqn:E12.
  { rewrite (merge_contains_second _ _ E12). split;
      [apply includes_refl|exact E12]. }
  destruct (includes str2 str1) eqn:E21.
  { rewrite (merge_contains_first _ _ E21). split;
      [exact E21|apply includes_refl]. }
  destruct str1 as [|c1 s1]; [now rewrite includes_nil in E21|].
  destruct str2 as [|c2 s2]; [now rewrite includes_nil in E12|].
  destruct (merge_by_overlap (c1 :: s1) (c2 :: s2)) as (L & _ & _ & _ & Hb & Ha);
    try discriminate; try assumption.
  split.
  - rewrite Ha. apply includes_app. now exists [], (skipn L (c2 :: s2)).
  - rewrite Hb. apply includes_app.
    exists (firstn (length (c1 :: s1) - L) (c1 :: s1)), [].
    now rewrite app_nil_r.
Qed.

(** X2. For non-empty strings none of which contains the other, the merge
    begins with the first string and ends with the second: it is the first
    string followed by the second without its first [L] characters, [L]
    being the overlap used, at most the shorter length. *)
Theorem X2_merge_prefix_suffix (str1 str2 : jsstring) :
  str1 <> [] -> str2 <> [] ->
  includes str1 str2 = false -> includes str2 str1 = false ->
  exists L,
    L <= Nat.min (length str1) (length str2)
    /\ smartMergeStrings str1 str2 = str1 ++ skipn L str2
    /\ smartMergeStrings str1 str2 = firstn (length str1 - L) str1 ++ str2
    /\ length (smartMergeStrings str1 str2) = length str1 + length str2 - L.
Proof.
  intros H1 H2 H12 H21.
  destruct (merge_by_overlap str1 str2 H1 H2 H12 H21)
    as (L & HL & _ & _ & Hb & Ha).
  exists L. repeat split; try assumption.
  rewrite Ha, length_app, length_skipn. lia.
Qed.

Lemma X2_merge_prefix_suffix_witness :
  exists L,
    L <= 5
    /\ smartMergeStrings (lit "hello wor") (lit "world")
       = lit "hello wor" ++ skipn L (lit "world").
Proof.
  assert (Hne1 : lit "hello wor" <> []) by discriminate.
  assert (Hne2 : lit "world" <> []) by discriminate.
  destruct (X2_merge_prefix_suffix (lit "hello wor") (lit "world")
              Hne1 Hne2 eq_refl eq_refl) as (L & HL & Ha & _).
  exists L. split; [exact HL|exact Ha].
Defined.

(** X3. No string that begins with the first string and ends with the
    second is shorter than their merge. *)
Theorem X3_merge_shortest (str1 str2 w x y : jsstring) :
  w = str1 ++ x -> w = y ++ str2 ->
  length (smartMergeStrings str1 str2) <= length w.
Proof.
  intros Hx Hy.
  assert (Hl1 : length w = length str1 + length x)
    by (rewrite Hx; apply length_app).
  assert (Hl2 : length w = length y + length str2)
    by (rewrite Hy; apply length_app).
  destruct (includes str1 str2) eqn:E12.
  { rewrite (merge_contains_second _ _ E12). lia. }
  destruct (includes str2 str1) eqn:E21.
  { rewrite (merge_contains_first _ _ E21). lia. }
  destruct str1 as [|c1 s1]; [now rewrite includes_nil in E21|].
  destruct str2 as [|c2 s2]; [now rewrite includes_nil in E12|].
  set (a := c1 :: s1) in *. set (b := c2 :: s2) in *.
  destruct (merge_by_overlap a b) as (L & HL & Hmax & _ & _ & Ha);
    try discriminate; try assumption.
  rewrite Ha, length_app, length_skipn.
  destruct (Nat.le_gt_cases (length a + length b) (length w)) as [|Hshort];
    [lia|].
  (* [w] is shorter than the concatenation: the strings overlap in [w] *)
  set (K := length a + length b - length w).
  assert (HK : overlap a b K).
  { split; [unfold K; subst a b; simpl length in *; lia|].
    assert (Hya : y = firstn (length a - K) a).
    { assert (E : firstn (length y) w = y)
        by (rewrite Hy, firstn_app, firstn_all, Nat.sub_diag; cbn;
            now rewrite app_nil_r).
      rewrite <- E, Hx, firstn_app.
      replace (length y - length a) with 0 by (unfold K; lia).
      cbn [firstn]. rewrite app_nil_r. f_equal. unfold K. lia. }
    assert (E : skipn (length y) w = b)
      by (rewrite Hy, skipn_app, skipn_all, Nat.sub_diag; reflexivity).
    rewrite Hx, skipn_app in E.
    replace (length y - length a) with 0 in E by (unfold K; lia).
    cbn [skipn] in E.
    replace (length a - K) with (length y) by (unfold K; lia).
    rewrite <- E, firstn_app.
    rewrite firstn_all2 by (rewrite length_skipn; unfold K; lia).
    replace (K - length (skipn (length y) a)) with 0
      by (rewrite length_skipn; unfold K; lia).
    cbn [firstn]. now rewrite app_nil_r. }
  apply Hmax in HK. unfold K in HK. lia.
Qed.

Lemma X3_merge_shortest_witness :
  lit "hello world" = lit "hello wor" ++ lit "ld"
  /\ lit "hello world" = lit "hello " ++ lit "world"
  /\ length (smartMergeStrings (lit "hello wor") (lit "world")) <= 11.
Proof.
  split; [reflexivity|]. split; [reflexivity|].
  exact (X3_merge_shortest (lit "hello wor") (lit "world")
           (lit "hello world") (lit "ld") (lit "hello ") eq_refl eq_refl).
Defined.

(** ** Line breaks *)

Lemma lineBreaksRegex_bounds (s : jsstring) (n : nat) (g : jsstring) :
  lineBreaksRegex s = Some (n, g) -> 1 <= n <= length s.
Proof.
  unfold lineBreaksRegex. pose proof (takeWhile_length is_newline s) as H.
  destruct (2 <=? _)%nat eqn:E; [|discriminate].
  apply Nat.leb_le in E. intros Hs. injection Hs as <- <-. lia.
Qed.

Lemma is_newline_eq (c : char16) : is_newline c = true -> c = NL.
Proof. apply N.eqb_eq. Qed.

(** After the second line break of a run the count no longer matters. *)
Lemma capLineBreaks_full (s : jsstring) :
  forall k k', 2 <= k -> 2 <= k' -> capLineBreaks k s = capLineBreaks k' s.
Proof.
  induction s as [|c s IH]; intros k k' Hk Hk'; [reflexivity|].
  cbn [capLineBreaks]. destruct (is_newline c); [|reflexivity].
  rewrite (proj2 (Nat.ltb_ge k 2) Hk), (proj2 (Nat.ltb_ge k' 2) Hk').
  apply IH; lia.
Qed.

(** The count does not matter before a character that is no line break. *)
Lemma capLineBreaks_start (s : jsstring) (k : nat) :
  stops is_newline s -> capLineBreaks k s = capLineBreaks 0 s.
Proof.
  destruct s as [|c s]; [reflexivity|]. cbn. now intros ->.
Qed.

Lemma capLineBreaks_run (s : jsstring) :
  forall k, 2 <= k ->
    capLineBreaks k s
    = capLineBreaks 0 (skipn (length (takeWhile is_newline s)) s).
Proof.
  induction s as [|c s IH]; intros k Hk; [reflexivity|].
  cbn [takeWhile]. destruct (is_newline c) eqn:E.
  - cbn [length skipn capLineBreaks]. rewrite E.
    apply Nat.ltb_ge in Hk as Hk'. rewrite Hk'. apply IH. lia.
  - cbn [length skipn]. apply capLineBreaks_start. exact E.
Qed.

Lemma lineBreaksRegex_miss (c : char16) (s : jsstring) :
  lineBreaksRegex (c :: s) = None -> is_newline c = true ->
  stops is_newline s.
Proof.
  unfold lineBreaksRegex. cbn [takeWhile]. intros H E. rewrite E in H.
  destruct s as [|d s]; [exact I|]. cbn [takeWhile stops] in *.
  destruct (is_newline d); [discriminate|reflexivity].
Qed.

Lemma lineBreaksRegex_hit (s : jsstring) (n : nat) (g : jsstring) :
  lineBreaksRegex s = Some (n, g) ->
  exists r, s = NL :: NL :: r /\ n = S (S (length (takeWhile is_newline r))).
Proof.
  unfold lineBreaksRegex. destruct s as [|c [|d r]]; cbn [takeWhile].
  - discriminate.
  - destruct (is_newline c); discriminate.
  - destruct (is_newline c) eqn:Ec; [|discriminate].
    destruct (is_newline d) eqn:Ed; [|discriminate].
    cbn [length Nat.leb]. intros H. injection H as <- _.
    apply is_newline_eq in Ec as ->. apply is_newline_eq in Ed as ->.
    now exists r.
Qed.

Lemma removeExtraLineBreaks_cap (s : jsstring) :
  removeExtraLineBreaks s = capLineBreaks 0 s.
Proof.
  unfold removeExtraLineBreaks, replace.
  induction s as [| c s Hc IH | s n g Hs IH]
    using (scan_ind lineBreaksRegex lineBreaksRegex_bounds).
  - reflexivity.
  - rewrite (scan_miss _ _ _ Hc). cbn [render capLineBreaks]. rewrite IH.
    destruct (is_newline c) eqn:E; [|reflexivity].
    pose proof (lineBreaksRegex_miss _ _ Hc E) as Hstop.
    apply is_newline_eq in E as ->. cbn [Nat.ltb Nat.leb]. f_equal.
    symmetry. now apply capLineBreaks_start.
  - rewrite (scan_hit _ lineBreaksRegex_bounds _ _ _ Hs). cbn [render app].
    rewrite IH. apply lineBreaksRegex_hit in Hs as (r & -> & ->).
    cbn [skipn capLineBreaks]. change (is_newline NL) with true.
    cbn [Nat.ltb Nat.leb]. do 2 f_equal.
    symmetry. apply capLineBreaks_run. lia.
Qed.

(** No more than [2 - run] line breaks open the result. *)
Lemma capLineBreaks_lead (s : jsstring) :
  forall k, length (takeWhile is_newline (capLineBreaks k s)) <= 2 - k.
Proof.
  induction s as [|c s IH]; intros k; [cbn; lia|].
  cbn [capLineBreaks]. destruct (is_newline c) eqn:E.
  - destruct (k <? 2)%nat eqn:Ek.
    + apply Nat.ltb_lt in Ek. cbn [takeWhile].
      change (is_newline NL) with true. cbn iota. cbn [length].
      specialize (IH (S k)). lia.
    + apply Nat.ltb_ge in Ek. specialize (IH (S k)). lia.
  - cbn [takeWhile]. rewrite E. cbn. lia.
Qed.

Lemma capLineBreaks_no_three (s : jsstring) :
  forall k a b, capLineBreaks k s <> a ++ [NL; NL; NL] ++ b.
Proof.
  induction s as [|c s IH]; intros k a b H.
  - destruct a; discriminate.
  - destruct a as [|x a].
    + pose proof (capLineBreaks_lead (c :: s) k) as Hlead.
      rewrite H in Hlead.
      assert (3 <= length (takeWhile is_newline ([] ++ [NL; NL; NL] ++ b))).
      { cbn [app takeWhile]. change (is_newline NL) with true.
        cbn iota. cbn [length]. lia. }
      lia.
    + cbn [capLineBreaks] in H. destruct (is_newline c).
      * destruct (k <? 2)%nat.
        -- injection H as _ H. exact (IH _ _ _ H).
        -- exact (IH _ _ _ H).
      * injection H as _ H. exact (IH _ _ _ H).
Qed.

Lemma capLineBreaks_idem (s : jsstring) :
  forall k, capLineBreaks k (capLineBreaks k s) = capLineBreaks k s.
Proof.
  induction s as [|c s IH]; intros k; [reflexivity|].
  cbn [capLineBreaks]. destruct (is_newline c) eqn:E.
  - destruct (k <? 2)%nat eqn:Ek.
    + cbn [capLineBreaks]. change (is_newline NL) with true.
      rewrite Ek. now rewrite IH.
    + apply Nat.ltb_ge in Ek.
      rewrite (capLineBreaks_full _ k (S k)) by lia. apply IH.
  - cbn [capLineBreaks]. rewrite E. now rewrite IH.
Qed.

(** X4. The result of [removeExtraLineBreaks] never has three line breaks
    in a row. *)
Theorem X4_line_breaks_at_most_two (text : jsstring) :
  includes (removeExtraLineBreaks text) [NL; NL; NL] = false.
Proof.
  destruct (includes _ _) eqn:E; [|reflexivity].
  apply includes_app in E as (a & b & E).
  rewrite removeExtraLineBreaks_cap in E.
  now apply capLineBreaks_no_three in E.
Qed.

(** X5. [removeExtraLineBreaks] changes nothing when applied again. *)
Theorem X5_line_breaks_idempotent (text : jsstring) :
  removeExtraLineBreaks (removeExtraLineBreaks text)
  = removeExtraLineBreaks text.
Proof. rewrite !removeExtraLineBreaks_cap. apply capLineBreaks_idem. Qed.

Lemma capLineBreaks_single (s : jsstring) :
  forall k, k <= 1 -> (k = 1 -> stops is_newline s) ->
    includes s [NL; NL] = false -> capLineBreaks k s = s.
Proof.
  induction s as [|c s IH]; intros k Hk Hstart Hno; [reflexivity|].
  cbn [includes] in Hno. apply orb_false_iff in Hno as [Hhead Hno].
  cbn [capLineBreaks]. destruct (is_newline c) eqn:E.
  - assert (k = 0) as ->.
    { destruct k as [|[|k]]; [reflexivity| |lia].
      specialize (Hstart eq_refl). cbn in Hstart. congruence. }
    cbn [Nat.ltb Nat.leb]. apply is_newline_eq in E as ->. f_equal.
    apply IH; [lia| |exact Hno].
    intros _. destruct s as [|d s]; [exact I|].
    cbn [startsWith] in Hhead. rewrite N.eqb_refl in Hhead.
    cbn [andb] in Hhead. rewrite andb_true_r in Hhead.
    cbn [stops]. unfold is_newline. now rewrite N.eqb_sym.
  - f_equal. apply IH; [lia|discriminate|exact Hno].
Qed.

(** X6. [removeExtraLineBreaks] keeps every character that is no line
    break, in order, and returns a text without two line breaks in a row as
    it is. *)
Theorem X6_line_breaks_keep_text (text : jsstring) :
  filter (fun c => negb (is_newline c)) (removeExtraLineBreaks text)
  = filter (fun c => negb (is_newline c)) text
  /\ (includes text [NL; NL] = false -> removeExtraLineBreaks text = text).
Proof.
  rewrite removeExtraLineBreaks_cap. split.
  - generalize 0 as k. induction text as [|c s IH]; intros k; [reflexivity|].
    cbn [capLineBreaks filter]. destruct (is_newline c) eqn:E; cbn [negb].
    + destruct (k <? 2)%nat; [|apply IH].
      cbn [filter]. change (is_newline NL) with true. apply IH.
    + cbn [filter]. rewrite E. cbn [negb]. now rewrite IH.
  - apply capLineBreaks_single; [lia|discriminate].
Qed.

Lemma X6_line_breaks_keep_text_witness :
  includes (lit "a" ++ [NL] ++ lit "b") [NL; NL] = false
  /\ removeExtraLineBreaks (lit "a" ++ [NL] ++ lit "b")
     = lit "a" ++ [NL] ++ lit "b".
Proof.
  split; [reflexivity|].
  exact (proj2 (X6_line_breaks_keep_text (lit "a" ++ [NL] ++ lit "b"))
           eq_refl).
Defined.

(** ** Tags *)

Lemma tagRegex_bounds (s : jsstring) (n : nat) (g : jsstring) :
  tagRegex s = Some (n, g) -> 1 <= n <= length s.
Proof.
  unfold tagRegex. destruct s as [|c r]; [discriminate|].
  destruct (c =? LT)%N; [|discriminate].
  pose proof (takeWhile_skipn not_gt r) as Hr.
  apply (f_equal (@length _)) in Hr. rewrite length_app in Hr.
  destruct (skipn _ r) as [|d t]; intros H; injection H as <- <-;
    cbn [length] in *; lia.
Qed.

Lemma stripTags_open (r : jsstring) :
  stripTags true r
  = stripTags false (skipn (S (length (takeWhile not_gt r))) r).
Proof.
  induction r as [|c r IH]; [reflexivity|].
  cbn [takeWhile stripTags]. unfold not_gt at 1.
  destruct (c =? GT)%N; cbn [negb length skipn]; [reflexivity|exact IH].
Qed.

Lemma tagRegex_hit (s : jsstring) (n : nat) (g : jsstring) :
  tagRegex s = Some (n, g) ->
  exists r,
    s = LT :: r /\ skipn n s = skipn (S (length (takeWhile not_gt r))) r.
Proof.
  unfold tagRegex. destruct s as [|c r]; [discriminate|].
  destruct (N.eqb_spec c LT) as [->|]; [|discriminate].
  intros H. exists r. split; [reflexivity|].
  destruct (skipn (length (takeWhile not_gt r)) r) as [|d t] eqn:Er;
    injection H as <- _.
  - change (skipn (S (length (takeWhile not_gt r))) (LT :: r))
      with (skipn (length (takeWhile not_gt r)) r).
    rewrite Er. symmetry. apply skipn_all2.
    apply (f_equal (@length _)) in Er. rewrite length_skipn in Er.
    cbn [length] in Er. lia.
  - replace (S (length (takeWhile not_gt r) + 1))
      with (S (S (length (takeWhile not_gt r)))) by lia.
    reflexivity.
Qed.

Lemma removeHTMLtags_strip (s : jsstring) :
  removeHTMLtags s = stripTags false s.
Proof.
  unfold removeHTMLtags, replace.
  induction s as [| c s Hc IH | s n g Hs IH]
    using (scan_ind tagRegex tagRegex_bounds).
  - reflexivity.
  - rewrite (scan_miss _ _ _ Hc). cbn [render stripTags]. rewrite IH.
    unfold tagRegex in Hc. destruct (c =? LT)%N; [|reflexivity].
    destruct (skipn _ s); discriminate.
  - rewrite (scan_hit _ tagRegex_bounds _ _ _ Hs). cbn [render app].
    rewrite IH. apply tagRegex_hit in Hs as (r & -> & ->).
    cbn [stripTags]. change (LT =? LT)%N with true. cbn iota.
    symmetry. apply stripTags_open.
Qed.

Lemma stripTags_no_lt (s : jsstring) :
  forall in_tag, ~ In LT (stripTags in_tag s).
Proof.
  induction s as [|c s IH]; intros in_tag; [intros []|].
  cbn [stripTags]. destruct in_tag.
  - destruct (c =? GT)%N; apply IH.
  - destruct (N.eqb_spec c LT) as [->|Hne]; [apply IH|].
    intros [H|H]; [congruence|exact (IH _ H)].
Qed.

Lemma stripTags_plain (a t : jsstring) :
  ~ In LT a -> stripTags false (a ++ t) = a ++ stripTags false t.
Proof.
  induction a as [|c a IH]; intros H; [reflexivity|].
  cbn [app stripTags].
  destruct (N.eqb_spec c LT) as [->|Hne]; [exfalso; apply H; now left|].
  f_equal. apply IH. intros Hin. apply H. now right.
Qed.

Lemma stripTags_inside (t rest : jsstring) :
  ~ In GT t -> stripTags true (t ++ rest) = stripTags true rest.
Proof.
  induction t as [|c t IH]; intros H; [reflexivity|].
  cbn [app stripTags].
  destruct (N.eqb_spec c GT) as [->|Hne]; [exfalso; apply H; now left|].
  apply IH. intros Hin. apply H. now right.
Qed.

(** X7. The result of [removeHTMLtags] has no [<], and the function changes
    nothing when applied again. *)
Theorem X7_tags_no_opening_left (text : jsstring) :
  ~ In LT (removeHTMLtags text)
  /\ removeHTMLtags (removeHTMLtags text) = removeHTMLtags text.
Proof.
  assert (H : ~ In LT (removeHTMLtags text)).
  { rewrite removeHTMLtags_strip. apply stripTags_no_lt. }
  split; [exact H|].
  rewrite (removeHTMLtags_strip (removeHTMLtags text)).
  pose proof (stripTags_plain (removeHTMLtags text) [] H) as E.
  now rewrite !app_nil_r in E.
Qed.

(** X8. [removeHTMLtags] takes out a tag with the text around it kept: text
    without [<], then a tag from [<] to the next [>], then the rest gives the
    text and the rest without its tags.  A [>] outside a tag stays. *)
Theorem X8_tags_closed (a t rest : jsstring) :
  ~ In LT a -> ~ In GT t ->
  removeHTMLtags (a ++ [LT] ++ t ++ [GT] ++ rest)
  = a ++ removeHTMLtags rest.
Proof.
  intros Ha Ht. rewrite !removeHTMLtags_strip.
  rewrite stripTags_plain by exact Ha. f_equal.
  cbn [app stripTags]. rewrite stripTags_inside by exact Ht. reflexivity.
Qed.

Lemma X8_tags_closed_witness :
  ~ In LT (lit "1 > 0 ") /\ ~ In GT (lit "b class='x'")
  /\ removeHTMLtags (lit "1 > 0 <b class='x'>bold</b>")
     = lit "1 > 0 " ++ removeHTMLtags (lit "bold</b>").
Proof.
  assert (Ha : ~ In LT (lit "1 > 0 ")).
  { cbn. intros H. repeat (destruct H as [H|H]; [discriminate|]). exact H. }
  assert (Ht : ~ In GT (lit "b class='x'")).
  { cbn. intros H. repeat (destruct H as [H|H]; [discriminate|]). exact H. }
  split; [exact Ha|]. split; [exact Ht|].
  exact (X8_tags_closed (lit "1 > 0 ") (lit "b class='x'") (lit "bold</b>")
           Ha Ht).
Defined.

(** X9. A [<] that no [>] follows takes everything after it away:
    [removeHTMLtags] returns only the text before it. *)
Theorem X9_tags_unclosed (a b : jsstring) :
  ~ In LT a -> ~ In GT b ->
  removeHTMLtags (a ++ [LT] ++ b) = a.
Proof.
  intros Ha Hb. rewrite removeHTMLtags_strip.
  rewrite stripTags_plain by exact Ha. cbn [app stripTags].
  pose proof (stripTags_inside b [] Hb) as E. rewrite app_nil_r in E.
  rewrite E. cbn. now rewrite app_nil_r.
Qed.

Lemma X9_tags_unclosed_witness :
  ~ In LT (lit "a ") /\ ~ In GT (lit " b and c")
  /\ removeHTMLtags (lit "a < b and c") = lit "a ".
Proof.
  assert (Ha : ~ In LT (lit "a ")).
  { cbn. intros H. repeat (destruct H as [H|H]; [discriminate|]). exact H. }
  assert (Hb : ~ In GT (lit " b and c")).
  { cbn. intros H. repeat (destruct H as [H|H]; [discriminate|]). exact H. }
  split; [exact Ha|]. split; [exact Hb|].
  exact (X9_tags_unclosed (lit "a ") (lit " b and c") Ha Hb).
Defined.

(** ** Sampling *)

Lemma array_slice_front {A : Type} (a : list A) (k : Z) :
  array_slice a 0 (Some k)
  = firstn (if (k <? 0)%Z then Z.to_nat (Z.of_nat (length a) + k)
            else Z.to_nat k) a.
Proof.
  unfold array_slice. change (0 <? 0)%Z with false. cbv iota.
  replace (Z.min 0 (Z.of_nat (length a))) with 0%Z by lia.
  change (Z.to_nat 0) with 0. cbn [skipn]. rewrite Z.sub_0_r.
  destruct (Z.ltb_spec k 0).
  - f_equal. lia.
  - destruct (Z.le_gt_cases k (Z.of_nat (length a))).
    + f_equal. lia.
    + replace (Z.to_nat (Z.max (Z.min k (Z.of_nat (length a))) 0))
        with (length a) by lia.
      rewrite !firstn_all2; [reflexivity|lia|lia].
Qed.

(** X10. [chooseK] returns [k] elements, all of them when the array has
    fewer; for a negative [k] it returns the array without its last [-k]
    elements (none when it has fewer). *)
Theorem X10_chooseK_size (a : list jsstring) (k : Z)
    (a' sample : list jsstring) :
  chooseK a k a' sample ->
  length sample
  = if (k <? 0)%Z then length a - Z.to_nat (- k)
    else Nat.min (Z.to_nat k) (length a).
Proof.
  intros [Hperm ->]. rewrite array_slice_front, length_firstn.
  rewrite (Permutation_length Hperm).
  destruct (Z.ltb_spec k 0); lia.
Qed.

Lemma X10_chooseK_size_witness :
  chooseK [lit "a"; lit "b"; lit "c"] (-1)
          [lit "c"; lit "a"; lit "b"] [lit "c"; lit "a"]
  /\ length [lit "c"; lit "a"] = 3 - 1.
Proof.
  assert (H : chooseK [lit "a"; lit "b"; lit "c"] (-1)
                      [lit "c"; lit "a"; lit "b"] [lit "c"; lit "a"]).
  { split; [|reflexivity].
    apply (Permutation_cons_app [lit "a"; lit "b"] [] (lit "c")).
    apply Permutation_refl. }
  split; [exact H|].
  exact (X10_chooseK_size _ _ _ _ H).
Defined.

(** X11. [chooseK] samples without repetition and reorders the array of the
    caller: the sample is the front of the array as the call leaves it, and
    that array holds the elements it held, each as often as before. *)
Theorem X11_chooseK_no_repetition (a : list jsstring) (k : Z)
    (a' sample : list jsstring) :
  chooseK a k a' sample ->
  exists rest,
    a' = sample ++ rest
    /\ Permutation (sample ++ rest) a
    /\ (NoDup a -> NoDup sample)
    /\ (forall x, In x sample -> In x a).
Proof.
  intros [Hperm ->]. rewrite array_slice_front.
  set (n := if (k <? 0)%Z then _ else _).
  exists (skipn n a').
  assert (E : a' = firstn n a' ++ skipn n a')
    by (symmetry; apply firstn_skipn).
  split; [exact E|]. rewrite <- E. split; [exact Hperm|]. split.
  - intros Hnd.
    assert (Hnd' : NoDup a')
      by (apply (Permutation_NoDup (Permutation_sym Hperm) Hnd)).
    rewrite E in Hnd'. now apply NoDup_app_remove_r in Hnd'.
  - intros x Hx. apply (Permutation_in x Hperm).
    rewrite E. apply in_or_app. now left.
Qed.

Lemma X11_chooseK_no_repetition_witness :
  chooseK [lit "a"; lit "b"; lit "c"] 2
          [lit "c"; lit "a"; lit "b"] [lit "c"; lit "a"]
  /\ exists rest, [lit "c"; lit "a"; lit "b"] = [lit "c"; lit "a"] ++ rest.
Proof.
  assert (H : chooseK [lit "a"; lit "b"; lit "c"] 2
                      [lit "c"; lit "a"; lit "b"] [lit "c"; lit "a"]).
  { split; [|reflexivity].
    apply (Permutation_cons_app [lit "a"; lit "b"] [] (lit "c")).
    apply Permutation_refl. }
  split; [exact H|].
  destruct (X11_chooseK_no_repetition _ _ _ _ H) as (rest & E & _).
  now exists rest.
Defined.

(** ** Replacing a placeholder *)

Lemma getSubstitution_plain (matched before after template : jsstring) :
  ~ In DOLLAR template ->
  getSubstitution matched before after template = template.
Proof.
  induction template as [|c r IH]; intros H; [reflexivity|].
  cbn [getSubstitution].
  destruct (N.eqb_spec c DOLLAR) as [->|Hne]; [exfalso; apply H; now left|].
  f_equal. apply IH. intros Hin. apply H. now right.
Qed.

Lemma replaceString_plain (pat repl : jsstring) :
  ~ In DOLLAR repl ->
  forall s before,
    replaceString pat repl before s = before ++ replaceFirst pat repl s.
Proof.
  intros Hrepl. induction s as [|c s IH]; intros before.
  - cbn [replaceString replaceFirst]. destruct (startsWith [] pat).
    + now rewrite getSubstitution_plain.
    + now rewrite app_nil_r.
  - cbn [replaceString replaceFirst]. destruct (startsWith (c :: s) pat).
    + now rewrite getSubstitution_plain.
    + rewrite IH, <- app_assoc. reflexivity.
Qed.

Lemma startsWith_self_app (p r : jsstring) : startsWith (p ++ r) p = true.
Proof. apply startsWith_app. now exists r. Qed.

(** The first occurrence is the one that no text with the first character
    of the pattern comes before. *)
Lemma replaceFirst_at (c : char16) (p repl a b : jsstring) :
  ~ In c a ->
  replaceFirst (c :: p) repl (a ++ (c :: p) ++ b) = a ++ repl ++ b.
Proof.
  intros Ha. induction a as [|x a IH].
  - cbn [app]. change (c :: p ++ b) with ((c :: p) ++ b).
    destruct b as [|y b].
    + rewrite app_nil_r. cbn [replaceFirst].
      pose proof (startsWith_self_app (c :: p) []) as E.
      rewrite app_nil_r in E. rewrite E.
      now rewrite skipn_all.
    + pose proof (startsWith_self_app (c :: p) (y :: b)) as E.
      cbn [app] in E |- *. cbn [replaceFirst]. rewrite E.
      change (c :: p ++ y :: b) with ((c :: p) ++ y :: b).
      rewrite skipn_app, skipn_all, Nat.sub_diag. reflexivity.
  - cbn [app replaceFirst startsWith].
    destruct (N.eqb_spec c x) as [->|Hne]; [exfalso; apply Ha; now left|].
    cbn [andb]. f_equal. apply IH. intros Hin. apply Ha. now right.
Qed.

(** X12. A parameter whose value has no dollar replaces the first
    occurrence of its placeholder, and that one only: what follows it is
    left as it is, further placeholders too. *)
Theorem X12_param_first_occurrence (paramKey value a b : jsstring) :
  ~ In DOLLAR value -> ~ In DOLLAR a ->
  I18n.applyParams [(paramKey, value)] (a ++ I18n.placeholder paramKey ++ b)
  = a ++ value ++ b.
Proof.
  intros Hv Ha. unfold I18n.applyParams. cbn [fold_left fst snd].
  rewrite replaceString_plain by exact Hv. cbn [app].
  unfold I18n.placeholder. change (lit "${") with [DOLLAR; 123%N].
  cbn [app].
  exact (replaceFirst_at DOLLAR (123%N :: paramKey ++ lit "}") value a b Ha).
Qed.

Lemma X12_param_first_occurrence_witness :
  ~ In DOLLAR (lit "Bob") /\ ~ In DOLLAR (lit "Hi ")
  /\ I18n.applyParams [(lit "name", lit "Bob")] (lit "Hi ${name}, ${name}!")
     = lit "Hi Bob, ${name}!".
Proof.
  assert (Hv : ~ In DOLLAR (lit "Bob")).
  { cbn. intros H. repeat (destruct H as [H|H]; [discriminate|]). exact H. }
  assert (Ha : ~ In DOLLAR (lit "Hi ")).
  { cbn. intros H. repeat (destruct H as [H|H]; [discriminate|]). exact H. }
  split; [exact Hv|]. split; [exact Ha|].
  exact (X12_param_first_occurrence (lit "name") (lit "Bob") (lit "Hi ")
           (lit ", ${name}!") Hv Ha).
Defined.

Lemma replaceString_absent (pat repl : jsstring) :
  forall s before,
    includes s pat = false -> replaceString pat repl before s = before ++ s.
Proof.
  induction s as [|c s IH]; intros before H; cbn [includes] in H;
    apply orb_false_iff in H as [H1 H2]; cbn [replaceString]; rewrite H1.
  - now rewrite app_nil_r.
  - rewrite IH by exact H2. now rewrite <- app_assoc.
Qed.

Lemma replaceString_found (pat repl : jsstring) :
  forall s before,
    includes s pat = true ->
    exists a b,
      s = a ++ pat ++ b
      /\ replaceString pat repl before s
         = (before ++ a) ++ getSubstitution pat (before ++ a) b repl ++ b.
Proof.
  induction s as [|c s IH]; intros before H; cbn [replaceString].
  - cbn [includes] in H. rewrite orb_false_r in H. rewrite H.
    apply startsWith_app in H as [r Hr].
    destruct pat; [|discriminate]. destruct r; [|discriminate].
    exists [], []. now rewrite !app_nil_r.
  - destruct (startsWith (c :: s) pat) eqn:E.
    + apply startsWith_app in E as [r Hr].
      exists [], r. split; [exact Hr|].
      rewrite Hr, skipn_app, skipn_all, Nat.sub_diag, app_nil_r.
      reflexivity.
    + cbn [includes] in H. rewrite E in H. cbn [orb] in H.
      destruct (IH (before ++ [c]) H) as (a & b & -> & Hrep).
      exists (c :: a), b. split; [reflexivity|].
      rewrite Hrep, <- !app_assoc. reflexivity.
Qed.

(** X13. The value of a parameter is read as a replacement pattern: the
    value "$&" stands for the placeholder itself and leaves every text as it
    is, and a value without a dollar leaves a text without the placeholder
    as it is. *)
Theorem X13_param_pattern (paramKey text : jsstring) :
  I18n.applyParams [(paramKey, [DOLLAR; AMPERSAND])] text = text
  /\ (forall value,
         includes text (I18n.placeholder paramKey) = false ->
         I18n.applyParams [(paramKey, value)] text = text).
Proof.
  unfold I18n.applyParams. cbn [fold_left fst snd]. split.
  - destruct (includes text (I18n.placeholder paramKey)) eqn:E.
    + destruct (replaceString_found (I18n.placeholder paramKey)
                  [DOLLAR; AMPERSAND] text [] E) as (a & b & Ht & ->).
      cbn [getSubstitution app].
      change (DOLLAR =? DOLLAR)%N with true.
      change (AMPERSAND =? DOLLAR)%N with false.
      change (AMPERSAND =? AMPERSAND)%N with true. cbn iota.
      now rewrite app_nil_r, Ht.
    + now rewrite replaceString_absent.
  - intros value E. now rewrite replaceString_absent.
Qed.

Lemma X13_param_pattern_witness :
  includes (lit "Au revoir") (I18n.placeholder (lit "name")) = false
  /\ I18n.applyParams [(lit "name", lit "$1")] (lit "Au revoir")
     = lit "Au revoir".
Proof.
  split; [reflexivity|].
  exact (proj2 (X13_param_pattern (lit "name") (lit "Au revoir"))
           (lit "$1") eq_refl).
Defined.

(** ** Localized texts *)


Lemma withParams_none (text : I18n.value) :
  I18n.withParams [] text = I18n.Returned text.
Proof. reflexivity. Qed.

Section I18nFacts.

Variable i18nData : jsstring -> I18n.value.
Variable stringProperty : jsstring -> jsstring -> I18n.value.

Local Set Warnings "-notation-for-abbreviation".
Local Notation lookup := (I18n.getI18nText i18nData stringProperty).
Local Notation read := (I18n.property stringProperty).
Local Notation settled := (fromLanguage i18nData stringProperty).

Lemma lookup_settled (key lang : jsstring)
    (params : list (jsstring * jsstring)) :
  lookup key lang params
  = if I18n.truthy (i18nData lang) then settled key lang params []
    else settled key (lit "en") params [I18n.languageNotFound lang].
Proof.
  unfold I18n.getI18nText, fromLanguage.
  destruct (I18n.truthy (i18nData lang)); reflexivity.
Qed.

Lemma settled_log (key lang1 : jsstring)
    (params : list (jsstring * jsstring)) (log1 : list jsstring) :
  settled key lang1 params log1
  = (log1 ++ fst (settled key lang1 params []),
     snd (settled key lang1 params [])).
Proof.
  unfold fromLanguage.
  destruct (read (i18nData lang1) key) as [text|];
    [|now rewrite app_nil_r].
  destruct (I18n.truthy text); [now rewrite app_nil_r|].
  destruct (read (i18nData (lit "en")) key) as [text'|]; [|reflexivity].
  destruct (I18n.truthy text'); cbn [fst snd app]; [reflexivity|].
  now rewrite <- app_assoc.
Qed.








Lemma settled_returns (key lang1 : jsstring) (text : I18n.value) :
  snd (settled key lang1 [] []) = I18n.Returned text ->
  (read (i18nData lang1) key = Some text /\ I18n.truthy text = true)
  \/ (read (i18nData (lit "en")) key = Some text /\ I18n.truthy text = true
      /\ fst (settled key lang1 [] []) <> [])
  \/ (text = I18n.Str key
      /\ In (I18n.keyNotFoundEither key) (fst (settled key lang1 [] []))).
Proof.
  unfold fromLanguage.
  destruct (read (i18nData lang1) key) as [found|]; [|discriminate].
  destruct (I18n.truthy found) eqn:Et.
  - cbn [snd]. rewrite withParams_none. intros H. injection H as <-.
    now left.
  - destruct (read (i18nData (lit "en")) key) as [found'|]; [|discriminate].
    destruct (I18n.truthy found') eqn:Et'; cbn [fst snd].
    + rewrite withParams_none. intros H. injection H as <-.
      right. left. repeat split; [exact Et'|discriminate].
    + intros H. injection H as <-. right. right.
      split; [reflexivity|]. right. now left.
Qed.

(** X14. A language under which the data has nothing truthy is answered as
    English is: the same outcome, and, when the data has something truthy
    under "en", the same lines written after the line that tells the
    language was not found. *)
Theorem X14_unknown_language_is_english (key lang : jsstring)
    (params : list (jsstring * jsstring)) :
  I18n.truthy (i18nData lang) = false ->
  snd (lookup key lang params) = snd (lookup key (lit "en") params)
  /\ (I18n.truthy (i18nData (lit "en")) = true ->
      fst (lookup key lang params)
      = I18n.languageNotFound lang :: fst (lookup key (lit "en") params)).
Proof.
  intros Hlang. rewrite !lookup_settled, Hlang.
  rewrite (settled_log key (lit "en") params [I18n.languageNotFound lang]).
  cbn [fst snd app].
  destruct (I18n.truthy (i18nData (lit "en"))).
  - split; [reflexivity|]. intros _. reflexivity.
  - rewrite (settled_log key (lit "en") params
               [I18n.languageNotFound (lit "en")]).
    split; [reflexivity|discriminate].
Qed.



(** X17. Called without parameters, [getI18nText] returns, when it returns,
    the truthy value found under the key in what the data has under the
    language, or else the truthy value found under the key in what it has
    under "en", after a line was written, or else the key itself, after the
    line that tells the key was not found for English either. *)
Theorem X17_returns_text_or_key (key lang : jsstring) (text : I18n.value) :
  snd (lookup key lang []) = I18n.Returned text ->
  (I18n.truthy (i18nData lang) = true
   /\ read (i18nData lang) key = Some text /\ I18n.truthy text = true)
  \/ (read (i18nData (lit "en")) key = Some text /\ I18n.truthy text = true
      /\ fst (lookup key lang []) <> [])
  \/ (text = I18n.Str key
      /\ In (I18n.keyNotFoundEither key) (fst (lookup key lang []))).
Proof.
  rewrite lookup_settled.
  destruct (I18n.truthy (i18nData lang)) eqn:Hlang.
  - intros H. apply settled_returns in H as [[H1 H2]|[H|H]].
    + left. now repeat split.
    + right. left. exact H.
    + right. right. exact H.
  - rewrite (settled_log key (lit "en") []
               [I18n.languageNotFound lang]).
    cbn [fst snd app]. intros H.
    apply settled_returns in H as [[H1 H2]|[(H1 & H2 & _)|[H1 H2]]].
    + right. left. repeat split; [exact H1|exact H2|discriminate].
    + right. left. repeat split; [exact H1|exact H2|discriminate].
    + right. right. split; [exact H1|now right].
Qed.

End I18nFacts.

Lemma X14_unknown_language_is_english_witness :
  I18n.truthy (sample_i18n (lit "de")) = false
  /\ I18n.getI18nText sample_i18n no_string_property (lit "hi") (lit "de") []
     = ([I18n.languageNotFound (lit "de")],
        I18n.Returned (I18n.Str (lit "Hello ${name}!"))).
Proof.
  split; [reflexivity|].
  destruct (X14_unknown_language_is_english sample_i18n no_string_property
              (lit "hi") (lit "de") [] eq_refl) as [Hout Hlog].
  specialize (Hlog eq_refl).
  destruct (I18n.getI18nText sample_i18n no_string_property (lit "hi")
              (lit "de") [])
    as [log out].
  cbn [fst snd] in Hout, Hlog. now rewrite Hout, Hlog.
Defined.

Lemma X17_returns_text_or_key_witness :
  snd (I18n.getI18nText sample_i18n no_string_property (lit "e") (lit "fr")
         [])
  = I18n.Returned (I18n.Str (lit "e"))
  /\ In (I18n.keyNotFoundEither (lit "e"))
        (fst (I18n.getI18nText sample_i18n no_string_property (lit "e")
                (lit "fr") [])).
Proof.
  split; [reflexivity|].
  destruct (X17_returns_text_or_key sample_i18n no_string_property (lit "e")
              (lit "fr") (I18n.Str (lit "e")) eq_refl)
    as [(_ & Hk & _)|[(Hk & _)|[_ Hin]]].
  - vm_compute in Hk. discriminate Hk.
  - vm_compute in Hk. discriminate Hk.
  - exact Hin.
Defined.

(** ** The reconciler: the correction test and the thrown url *)

(** X18. The second trigger of [needsCorrection] adds nothing: correction
    is needed exactly when the markers are as many as the references and all
    the same, or when there is a marker and every marker is beyond the
    number of references.  So when correction is not needed, some marker of
    a text that has markers is within the number of references. *)
Theorem X18_needsCorrection_two_triggers (footnotes : list jsstring)
    (nrefs : nat) :
  needsCorrection footnotes nrefs
  = ((length footnotes =? nrefs)%nat && allSame footnotes)
    || ((0 <? length footnotes)%nat
        && forallb (fun n => (N.of_nat nrefs <? parseInt n)%N) footnotes)
  /\ (footnotes <> [] -> needsCorrection footnotes nrefs = false ->
      exists n, In n footnotes /\ (parseInt n <= N.of_nat nrefs)%N).
Proof.
  assert (Himp : allSame footnotes
                 && (N.of_nat nrefs <? parseInt (hd [] footnotes))%N = true ->
                 (0 <? length footnotes)%nat
                 && forallb (fun n => (N.of_nat nrefs <? parseInt n)%N)
                            footnotes = true).
  { intros H. apply andb_true_iff in H as [Hsame Hbig].
    destruct footnotes as [|f r].
    - cbn in Hbig. destruct (N.of_nat nrefs); discriminate.
    - cbn [length Nat.ltb Nat.leb andb]. unfold allSame in Hsame.
      cbn [hd] in *. rewrite forallb_forall in *. intros x Hx.
      apply Hsame in Hx. apply str_eqb_eq in Hx. now subst x. }
  assert (Heq : needsCorrection footnotes nrefs
                = ((length footnotes =? nrefs)%nat && allSame footnotes)
                  || ((0 <? length footnotes)%nat
                      && forallb (fun n => (N.of_nat nrefs <? parseInt n)%N)
                                 footnotes)).
  { unfold needsCorrection.
    destruct ((length footnotes =? nrefs)%nat && allSame footnotes);
      [reflexivity|]. cbn [orb].
    destruct (allSame footnotes
              && (N.of_nat nrefs <? parseInt (hd [] footnotes))%N) eqn:E;
      [|reflexivity].
    now rewrite (Himp eq_refl). }
  split; [exact Heq|].
  intros Hne Hno. rewrite Heq in Hno.
  apply orb_false_iff in Hno as [_ Hno].
  destruct footnotes as [|f r]; [contradiction|].
  cbn [length Nat.ltb Nat.leb andb] in Hno.
  destruct (forallb _ _) eqn:E in Hno; [discriminate|]. clear Hno.
  assert (Hex : forall l,
             forallb (fun n => (N.of_nat nrefs <? parseInt n)%N) l = false ->
             exists n, In n l /\ (parseInt n <= N.of_nat nrefs)%N).
  { induction l as [|x l IH]; [discriminate|]. cbn [forallb].
    intros H. apply andb_false_iff in H as [H|H].
    - exists x. split; [now left|]. now apply N.ltb_ge.
    - destruct (IH H) as (n & Hin & Hn). exists n. split; [now right|exact Hn]. }
  exact (Hex _ E).
Qed.

Lemma X18_needsCorrection_two_triggers_witness :
  [lit "5"; lit "1"] <> []
  /\ needsCorrection [lit "5"; lit "1"] 2 = false
  /\ exists n, In n [lit "5"; lit "1"] /\ (parseInt n <= 2)%N.
Proof.
  assert (Hne : [lit "5"; lit "1"] <> []) by discriminate.
  split; [exact Hne|]. split; [reflexivity|].
  exact (proj2 (X18_needsCorrection_two_triggers [lit "5"; lit "1"] 2)
           Hne eq_refl).
Defined.

Section ThrownUrl.

Variable uL uN : N -> bool.
Variable uh : jsstring -> option jsstring.

Lemma formatLines_first_refused (refs : list Reference) :
  forall i,
    match firstRefusedUrl uh refs with
    | Some u => formatLines uL uN uh i refs = Throw (InvalidURL u)
    | None => exists lines, formatLines uL uN uh i refs = Ok lines
    end.
Proof.
  induction refs as [|r refs IH]; intros i.
  - now exists [].
  - cbn [firstRefusedUrl formatLines]. unfold formatReference.
    specialize (IH (S i)).
    destruct (url r) as [u|].
    + destruct (startsWith u (lit "http")); cbn [negb].
      * destruct (uh u) as [h|]; [|reflexivity]. cbn [bind].
        destruct (firstRefusedUrl uh refs) as [u'|].
        -- now rewrite IH.
        -- destruct IH as [lines ->]. cbn [bind]. now eexists.
      * cbn [bind]. destruct (firstRefusedUrl uh refs) as [u'|].
        -- now rewrite IH.
        -- destruct IH as [lines ->]. cbn [bind]. now eexists.
    + cbn [bind]. destruct (firstRefusedUrl uh refs) as [u'|].
      * now rewrite IH.
      * destruct IH as [lines ->]. cbn [bind]. now eexists.
Qed.

(** X19. [buildMdFromAnswer] throws exactly when the URL parser refuses the
    url, beginning with "http", of some reference, and the error is about
    the first such url in the order of the list; otherwise a string is
    returned. *)
Theorem X19_first_refused_url_thrown (a : AnswerAction) :
  match firstRefusedUrl uh (references a) with
  | Some u => buildMdFromAnswer uL uN uh a = Throw (InvalidURL u)
  | None => exists out, buildMdFromAnswer uL uN uh a = Ok out
  end.
Proof.
  pose proof (formatLines_first_refused (references a) 0) as H.
  destruct (references a) as [|r refs] eqn:E.
  - cbn [firstRefusedUrl]. unfold buildMdFromAnswer. rewrite E.
    cbn [length Nat.eqb]. now eexists.
  - rewrite <- E in *.
    assert (Hne : references a <> []) by (rewrite E; discriminate).
    destruct (firstRefusedUrl uh (references a)) as [u|].
    + apply build_throw; [exact Hne|].
      unfold formatReferences. now rewrite H.
    + destruct H as [lines H].
      exists (trimStart (textPart a ++ markerLine a ++ [NL; NL])
              ++ trimEnd (join [NL; NL] lines)).
      apply build_ok; [exact Hne|].
      unfold formatReferences. now rewrite H.
Qed.

End ThrownUrl.

(** ** The reconciler: correcting twice *)

Lemma render_relabel (ps : list piece) :
  forall st,
    render nextMarker st (relabel st ps) = render nextMarker st ps.
Proof.
  induction ps as [|[c|m g] ps IH]; intros st; cbn [relabel render nextMarker].
  - reflexivity.
  - now rewrite IH.
  - now rewrite IH.
Qed.

(** X21. Correcting a corrected text changes nothing: the renumbering is
    the same when done again. *)
Theorem X21_correction_idempotent (processedAnswer : jsstring) :
  correctAnswer (correctAnswer processedAnswer)
  = correctAnswer processedAnswer.
Proof.
  change (correctAnswer (correctAnswer processedAnswer))
    with (render nextMarker 0
            (scan footnoteRegex (correctAnswer processedAnswer))).
  rewrite correctAnswer_scan. apply render_relabel.
Qed.

(** ** The reconciler: the line of unused references *)

Lemma NoDup_map_injective {A B : Type} (f : A -> B) (l : list A) :
  (forall x y, f x = f y -> x = y) -> NoDup l -> NoDup (map f l).
Proof.
  intros Hinj. induction 1 as [|x l Hx Hl IH]; cbn; constructor; [|exact IH].
  rewrite in_map_iff. intros (y & E & Hy). apply Hinj in E. now subst.
Qed.

(** With fewer values used than indices there are, an index is unused. *)
Lemma unused_index_exists (used : list N) (n : nat) :
  length used < n ->
  filter (fun i => negb (existsb (N.eqb (N.of_nat (i + 1))) used)) (seq 0 n)
  <> [].
Proof.
  intros Hlt E.
  set (f := fun i => negb (existsb (N.eqb (N.of_nat (i + 1))) used)) in *.
  pose proof (filter_length f (seq 0 n)) as Hlen.
  rewrite E, length_seq in Hlen. cbn [length plus] in Hlen.
  set (taken := filter (fun i => negb (f i)) (seq 0 n)) in *.
  assert (Hnd : NoDup (map (fun i => N.of_nat (i + 1)) taken)).
  { apply NoDup_map_injective; [intros x y Hxy; lia|].
    apply NoDup_filter, seq_NoDup. }
  assert (Hincl : incl (map (fun i => N.of_nat (i + 1)) taken) used).
  { intros m Hm. apply in_map_iff in Hm as (i & <- & Hi).
    apply filter_In in Hi as [_ Hi]. unfold f in Hi.
    rewrite negb_involutive in Hi.
    apply existsb_exists in Hi as (x & Hx & Hxe).
    apply N.eqb_eq in Hxe. now subst x. }
  pose proof (NoDup_incl_length Hnd Hincl) as Hle.
  rewrite length_map in Hle. lia.
Qed.

Section UnusedReferences.

Variable uL uN : N -> bool.
Variable uh : jsstring -> option jsstring.

(** X20. When the text has markers, fewer than there are references, and
    needs no correction, the result is the text, a space, a blank line, the
    line of the glyph and the markers of the references that no marker of
    the text names, in rising order and at least one, a blank line and the
    reference block, trimmed. *)
Theorem X20_unused_references_line (a : AnswerAction) (block : jsstring) :
  let processedAnswer := processAnswer (answer a) in
  let footnotes := findFootnotes processedAnswer in
  let n := length (references a) in
  let used := map parseInt footnotes in
  let unusedReferences :=
    tabulate n (fun i =>
      if negb (existsb (N.eqb (N.of_nat (i + 1))) used)
      then marker (decimal (i + 1)) else []) in
  footnotes <> [] ->
  length footnotes < n ->
  needsCorrection footnotes n = false ->
  formatReferences uL uN uh (references a) = Ok block ->
  buildMdFromAnswer uL uN uh a
  = Ok (trimStart (processedAnswer ++ [SPACE; NL; NL])
        ++ [DOTTED_CROSS] ++ unusedReferences ++ [NL; NL] ++ trimEnd block)
  /\ markerNumbers unusedReferences
     = filter (fun m => negb (existsb (N.eqb m) used))
              (map N.of_nat (seq 1 n))
  /\ unusedReferences <> [].
Proof.
  intros p fn n used unused Hfn Hlt Hneeds Hb.
  assert (Hne : references a <> []).
  { intros E. unfold n in Hlt. rewrite E in Hlt. cbn in Hlt. lia. }
  assert (Hnum : markerNumbers unused
                 = filter (fun m => negb (existsb (N.eqb m) used))
                          (map N.of_nat (seq 1 n))).
  { unfold markerNumbers, unused, tabulate.
    rewrite (scan_tabulate
               (fun i => negb (existsb (N.eqb (N.of_nat (i + 1))) used)) n 0).
    rewrite map_map, <- seq_shift, map_map, filter_map_swap.
    rewrite (map_ext (fun i => parseInt (decimal (i + 1)))
                     (fun i => N.of_nat (S i))).
    - f_equal. apply filter_ext. intros i. now rewrite Nat.add_1_r.
    - intros i. rewrite parseInt_decimal. now rewrite Nat.add_1_r. }
  split; [|split; [exact Hnum|]].
  - rewrite (build_ok uL uN uh a block Hne Hb). f_equal.
    assert (Htext : textPart a = p).
    { unfold textPart. fold p. fold fn. fold n. now rewrite Hneeds. }
    assert (Hline : markerLine a = [SPACE; NL; NL; DOTTED_CROSS] ++ unused).
    { unfold markerLine. fold p. fold fn. fold n. rewrite Hneeds.
      rewrite (proj2 (Nat.ltb_lt _ _) Hlt).
      destruct (length fn =? 0)%nat eqn:E0; [|reflexivity].
      apply Nat.eqb_eq in E0. destruct fn; [contradiction|discriminate]. }
    rewrite Htext, Hline.
    replace (p ++ ([SPACE; NL; NL; DOTTED_CROSS] ++ unused) ++ [NL; NL])
      with ((p ++ [SPACE; NL; NL]) ++ DOTTED_CROSS :: (unused ++ [NL; NL])).
    + rewrite trimStart_app_keep by reflexivity.
      rewrite <- !app_assoc. cbn [app]. rewrite <- !app_assoc. reflexivity.
    + rewrite <- !app_assoc. reflexivity.
  - intros E. rewrite E in Hnum.
    change (markerNumbers []) with (@nil N) in Hnum.
    assert (Hlen : length used < n) by (unfold used; now rewrite length_map).
    apply (unused_index_exists used n Hlen).
    rewrite <- seq_shift, map_map, filter_map_swap in Hnum.
    symmetry in Hnum. apply map_eq_nil in Hnum.
    rewrite <- Hnum. apply filter_ext. intros i. now rewrite Nat.add_1_r.
Qed.

End UnusedReferences.

Lemma X20_unused_references_line_witness :
  findFootnotes (processAnswer (answer one_of_three)) <> []
  /\ run one_of_three
     = Ok (lit "a [^2] b " ++ [NL; NL; DOTTED_CROSS] ++ lit "[^1][^3]"
           ++ [NL; NL] ++ lit "[^1]: q" ++ [NL; NL] ++ lit "[^2]: r"
           ++ [NL; NL] ++ lit "[^3]: s").
Proof.
  assert (Hfn : findFootnotes (processAnswer (answer one_of_three)) <> [])
    by discriminate.
  split; [exact Hfn|].
  assert (Hlt : length (findFootnotes (processAnswer (answer one_of_three)))
                < length (references one_of_three)) by (cbn; lia).
  destruct (X20_unused_references_line no_unicode no_unicode sample_hostname
              one_of_three _ Hfn Hlt eq_refl eq_refl) as [Hrun _].
  exact Hrun.
Defined.

(** ** The cleaned quote *)

Lemma collapseSpaces_chars (s : jsstring) :
  forall in_run c,
    In c (collapseSpaces in_run s) ->
    c = SPACE \/ (In c s /\ is_space c = false).
Proof.
  induction s as [|x s IH]; intros in_run c H; [contradiction|].
  cbn [collapseSpaces] in H. destruct (is_space x) eqn:E.
  - destruct in_run.
    + destruct (IH _ _ H) as [->|[Hin Hc]]; [now left|].
      right. split; [now right|exact Hc].
    + destruct H as [<-|H]; [now left|].
      destruct (IH _ _ H) as [->|[Hin Hc]]; [now left|].
      right. split; [now right|exact Hc].
  - destruct H as [<-|H]; [right; split; [now left|exact E]|].
    destruct (IH _ _ H) as [->|[Hin Hc]]; [now left|].
    right. split; [now right|exact Hc].
Qed.

Lemma collapseSpaces_in_run (s : jsstring) :
  stops is_space (collapseSpaces true s).
Proof.
  induction s as [|x s IH]; [exact I|]. cbn [collapseSpaces].
  destruct (is_space x) eqn:E; [exact IH|exact E].
Qed.

Lemma collapseSpaces_no_double (s : jsstring) :
  forall in_run a t,
    collapseSpaces in_run s <> a ++ SPACE :: SPACE :: t.
Proof.
  induction s as [|x s IH]; intros in_run a t H.
  - destruct a; discriminate.
  - cbn [collapseSpaces] in H. destruct (is_space x) eqn:E.
    + destruct in_run; [exact (IH _ _ _ H)|].
      destruct a as [|y a]; cbn [app] in H.
      * assert (H' : collapseSpaces true s = SPACE :: t) by congruence.
        pose proof (collapseSpaces_in_run s) as Hs. rewrite H' in Hs.
        discriminate Hs.
      * assert (H' : collapseSpaces true s = a ++ SPACE :: SPACE :: t)
          by congruence.
        exact (IH _ _ _ H').
    + destruct a as [|y a]; cbn [app] in H.
      * assert (Hx : x = SPACE) by congruence. subst x. discriminate E.
      * assert (H' : collapseSpaces false s = a ++ SPACE :: SPACE :: t)
          by congruence.
        exact (IH _ _ _ H').
Qed.

Section CleanQuote.

Variable uL uN : N -> bool.

Lemma replaceNonWord_chars (n : nat) :
  forall s c,
    length s <= n ->
    In c (replaceNonWord uL uN s) ->
    c = SPACE \/ is_word uL uN c = true
    \/ is_high_surrogate c || is_low_surrogate c = true.
Proof.
  induction n as [|n IH]; intros s c Hlen H.
  - destruct s; [contradiction|simpl in Hlen; lia].
  - destruct s as [|x [|y s]]; [contradiction| |].
    + cbn [replaceNonWord] in H. destruct H as [<-|[]].
      destruct (is_word uL uN x) eqn:E; [right; left; exact E|now left].
    + cbn [replaceNonWord] in H. cbn [length] in Hlen.
      destruct (is_high_surrogate x && is_low_surrogate y) eqn:Epair.
      * apply andb_true_iff in Epair as [Ehi Elo].
        destruct (is_word uL uN (code_point x y)).
        -- destruct H as [<-|[<-|H]].
           ++ right. right. now rewrite Ehi.
           ++ right. right. rewrite Elo. apply orb_true_r.
           ++ apply (IH s c); [lia|exact H].
        -- destruct H as [<-|H]; [now left|].
           apply (IH s c); [lia|exact H].
      * destruct H as [<-|H].
        -- destruct (is_word uL uN x) eqn:E; [right; left; exact E|now left].
        -- apply (IH (y :: s) c); [cbn [length]; lia|exact H].
Qed.

Lemma ascii_word (c : char16) :
  (c < 128)%N -> is_word uL uN c = true -> is_space c = false ->
  ascii_alnum c = true.
Proof.
  intros Hc Hw Hs. unfold is_word, is_letter, is_number in Hw.
  apply N.ltb_lt in Hc. rewrite Hc, Hs, orb_false_r in Hw.
  unfold ascii_alnum, is_digit in *.
  destruct ((48 <=? c)%N && (c <=? 57)%N); [reflexivity|].
  now rewrite orb_false_r in Hw.
Qed.

(** X23. A cleaned quote has, of the ASCII characters, only letters, digits
    and the space, and never two spaces in a row; so it has no bracket, no
    caret and no line break, and cannot bring a footnote marker or a new
    line into the reference block. *)
Theorem X23_clean_quote_characters (exactQuote : jsstring) :
  (forall c, In c (cleanQuote uL uN exactQuote) -> (c < 128)%N ->
             c = SPACE \/ ascii_alnum c = true)
  /\ includes (cleanQuote uL uN exactQuote) [SPACE; SPACE] = false
  /\ ~ In LBRACKET (cleanQuote uL uN exactQuote)
  /\ ~ In CARET (cleanQuote uL uN exactQuote)
  /\ ~ In NL (cleanQuote uL uN exactQuote)
  /\ findFootnotes (cleanQuote uL uN exactQuote) = [].
Proof.
  assert (Hchars : forall c, In c (cleanQuote uL uN exactQuote) ->
                             (c < 128)%N ->
                             c = SPACE \/ ascii_alnum c = true).
  { intros c Hin Hc. unfold cleanQuote in Hin. rewrite replace_spaces in Hin.
    apply collapseSpaces_chars in Hin as [->|[Hin Hs]]; [now left|].
    apply (replaceNonWord_chars (length exactQuote) exactQuote c
             (Nat.le_refl _)) in Hin as [->|[Hw|Hsur]].
    - now left.
    - right. now apply ascii_word.
    - exfalso. unfold is_high_surrogate, is_low_surrogate in Hsur.
      apply orb_true_iff in Hsur as [H|H];
        apply andb_true_iff in H as [H _]; apply N.leb_le in H; lia. }
  assert (Hnot : forall c, (c < 128)%N -> c <> SPACE ->
                           ascii_alnum c = false ->
                           ~ In c (cleanQuote uL uN exactQuote)).
  { intros c Hc Hsp Hal Hin.
    destruct (Hchars c Hin Hc) as [H|H]; [contradiction|congruence]. }
  assert (Hbracket : ~ In LBRACKET (cleanQuote uL uN exactQuote))
    by (apply Hnot; [reflexivity|discriminate|reflexivity]).
  split; [exact Hchars|]. split.
  - destruct (includes _ _) eqn:E; [|reflexivity].
    apply includes_app in E as (a & t & E).
    unfold cleanQuote in E. rewrite replace_spaces in E.
    now apply collapseSpaces_no_double in E.
  - split; [exact Hbracket|].
    split; [apply Hnot; [reflexivity|discriminate|reflexivity]|].
    split; [apply Hnot; [reflexivity|discriminate|reflexivity]|].
    apply scan_no_bracket. exact Hbracket.
Qed.

End CleanQuote.

(** ** Grouped footnotes *)

Lemma space_not_digit (c : char16) : is_space c = true -> is_digit c = false.
Proof.
  intros Hs. destruct (is_digit c) eqn:Hd; [|reflexivity].
  unfold is_digit in Hd. apply andb_true_iff in Hd as [H1 H2].
  apply N.leb_le in H1, H2. unfold is_space in Hs.
  repeat (apply orb_true_iff in Hs as [Hs|Hs]).
  all: try (apply N.eqb_eq in Hs; lia).
  all: apply andb_true_iff in Hs as [H3 H4]; apply N.leb_le in H3, H4; lia.
Qed.

Lemma groupItem_written (ws d tail : jsstring) :
  forallb is_space ws = true -> is_number_text d -> stops is_digit tail ->
  groupItem ([COMMA] ++ ws ++ [CARET] ++ d ++ tail)
  = Some (1 + length ws + 1 + length d).
Proof.
  intros Hws [Hne Hd] Htail. unfold groupItem. cbn [app].
  rewrite (takeWhile_app is_space ws _ Hws) by reflexivity.
  rewrite skipn_app, skipn_all, Nat.sub_diag. cbn [app skipn].
  rewrite (takeWhile_app is_digit d _ Hd Htail).
  destruct d; [contradiction|reflexivity].
Qed.

Lemma groupItem_bracket (rest : jsstring) :
  groupItem (RBRACKET :: rest) = None.
Proof.
  unfold groupItem. destruct (skipn _ rest); reflexivity.
Qed.

Lemma groupedTail_cons (item : jsstring * jsstring)
    (items : list (jsstring * jsstring)) (rest : jsstring) :
  groupedTail (item :: items) ++ rest
  = [COMMA] ++ fst item ++ [CARET] ++ snd item ++ groupedTail items ++ rest.
Proof.
  unfold groupedTail. cbn [map concat]. now rewrite <- !app_assoc.
Qed.

Lemma groupedTail_length (item : jsstring * jsstring)
    (items : list (jsstring * jsstring)) :
  length (groupedTail (item :: items))
  = 1 + length (fst item) + 1 + length (snd item)
    + length (groupedTail items).
Proof.
  change (groupedTail (item :: items))
    with (([COMMA] ++ fst item ++ [CARET] ++ snd item) ++ groupedTail items).
  rewrite !length_app. cbn [length]. lia.
Qed.

(** What follows a number of a grouped footnote is a comma or the closing
    bracket. *)
Lemma groupedTail_stops (items : list (jsstring * jsstring))
    (rest : jsstring) :
  stops is_digit (groupedTail items ++ RBRACKET :: rest).
Proof. destruct items; reflexivity. Qed.

Lemma groupItems_written (items : list (jsstring * jsstring)) :
  forall fuel rest,
    Forall written_item items -> length items <= fuel ->
    groupItems fuel (groupedTail items ++ RBRACKET :: rest)
    = length (groupedTail items).
Proof.
  induction items as [|item items IH]; intros fuel rest Hall Hfuel.
  - cbn [groupedTail map concat app length].
    destruct fuel; [reflexivity|]. cbn [groupItems].
    now rewrite groupItem_bracket.
  - destruct fuel as [|fuel]; [simpl in Hfuel; lia|].
    inversion Hall as [|? ? [Hws Hd] Hrest]; subst.
    cbn [groupItems]. rewrite groupedTail_cons.
    rewrite (groupItem_written _ _ _ Hws Hd (groupedTail_stops items rest)).
    replace (skipn (1 + length (fst item) + 1 + length (snd item))
               ([COMMA] ++ fst item ++ [CARET] ++ snd item
                ++ groupedTail items ++ RBRACKET :: rest))
      with (groupedTail items ++ RBRACKET :: rest).
    + rewrite IH by (assumption || (simpl in Hfuel; lia)).
      now rewrite groupedTail_length.
    + replace ([COMMA] ++ fst item ++ [CARET] ++ snd item
               ++ groupedTail items ++ RBRACKET :: rest)
        with (([COMMA] ++ fst item ++ [CARET] ++ snd item)
              ++ groupedTail items ++ RBRACKET :: rest)
        by (now rewrite <- !app_assoc).
      rewrite skipn_app.
      replace (1 + length (fst item) + 1 + length (snd item))
        with (length ([COMMA] ++ fst item ++ [CARET] ++ snd item))
        by (rewrite !length_app; cbn; lia).
      now rewrite skipn_all, Nat.sub_diag.
Qed.

Lemma groupedTail_items (items : list (jsstring * jsstring)) :
  length items <= length (groupedTail items).
Proof.
  induction items as [|item items IH]; [reflexivity|].
  rewrite groupedTail_length. cbn [length]. lia.
Qed.

Lemma groupedMarker_length (first : jsstring)
    (items : list (jsstring * jsstring)) :
  length (groupedMarker first items)
  = 2 + length first + length (groupedTail items) + 1.
Proof.
  unfold groupedMarker. rewrite !length_app. cbn [length]. lia.
Qed.

Lemma groupedFootnoteRegex_written (first : jsstring)
    (items : list (jsstring * jsstring)) (rest : jsstring) :
  is_number_text first -> items <> [] -> Forall written_item items ->
  groupedFootnoteRegex (groupedMarker first items ++ rest)
  = Some (length (groupedMarker first items), first).
Proof.
  intros [Hne Hd] Hitems Hall. rewrite groupedMarker_length.
  unfold groupedMarker, groupedFootnoteRegex. cbn [app].
  replace ((first ++ groupedTail items ++ [RBRACKET]) ++ rest)
    with (first ++ groupedTail items ++ RBRACKET :: rest)
    by (now rewrite <- !app_assoc).
  rewrite (takeWhile_app is_digit first _ Hd (groupedTail_stops items rest)).
  rewrite skipn_app, skipn_all, Nat.sub_diag. cbn [app skipn].
  rewrite groupItems_written.
  - rewrite skipn_app, skipn_all, Nat.sub_diag. cbn [app skipn].
    assert (Hpos : (0 <? length (groupedTail items))%nat = true).
    { apply Nat.ltb_lt. pose proof (groupedTail_items items).
      destruct items; [contradiction|]. cbn [length] in *. lia. }
    rewrite Hpos. destruct first; [contradiction|reflexivity].
  - exact Hall.
  - rewrite length_app. pose proof (groupedTail_items items). lia.
Qed.

Lemma groupedFootnoteRegex_bounds (s : jsstring) (n : nat) (g : jsstring) :
  groupedFootnoteRegex s = Some (n, g) -> 1 <= n <= length s.
Proof.
  unfold groupedFootnoteRegex. destruct s as [|c1 [|c2 r]]; try discriminate.
  set (digits := takeWhile is_digit r).
  set (r' := skipn (length digits) r).
  set (items := groupItems (length r') r').
  destruct (startsWith (skipn items r') [RBRACKET]) eqn:E;
    [|rewrite andb_false_r; discriminate].
  match goal with |- (if ?b then _ else _) = _ -> _ => destruct b end;
    [|discriminate].
  intros H. injection H as <- _.
  assert (Hitems : items < length r').
  { destruct (Nat.lt_ge_cases items (length r')) as [|Hge]; [assumption|].
    rewrite skipn_all2 in E by exact Hge. discriminate. }
  assert (Hr' : length r' = length r - length digits)
    by (unfold r'; apply length_skipn).
  pose proof (takeWhile_length is_digit r). fold digits in H.
  cbn [length]. lia.
Qed.

Lemma groupedFootnoteRegex_other (c : char16) (s : jsstring) :
  (c =? LBRACKET)%N = false -> groupedFootnoteRegex (c :: s) = None.
Proof.
  intros H. unfold groupedFootnoteRegex. destruct s; [reflexivity|].
  now rewrite H.
Qed.

Lemma digitsRegex_bounds (s : jsstring) (n : nat) (g : jsstring) :
  digitsRegex s = Some (n, g) -> 1 <= n <= length s.
Proof.
  unfold digitsRegex. pose proof (takeWhile_length is_digit s) as H.
  destruct (takeWhile is_digit s) as [|c w]; [discriminate|].
  intros E. injection E as <- <-. simpl in *. lia.
Qed.

Lemma hits_other (pre s : jsstring) :
  forallb (fun c => negb (is_digit c)) pre = true ->
  hits (scan digitsRegex (pre ++ s)) = hits (scan digitsRegex s).
Proof.
  induction pre as [|c pre IH]; intros H; [reflexivity|].
  cbn [forallb] in H. apply andb_true_iff in H as [Hc Hpre].
  apply negb_true_iff in Hc. cbn [app].
  rewrite scan_miss.
  - cbn [hits]. now apply IH.
  - unfold digitsRegex. cbn [takeWhile]. now rewrite Hc.
Qed.

Lemma hits_number (d t : jsstring) :
  is_number_text d -> stops is_digit t ->
  hits (scan digitsRegex (d ++ t)) = d :: hits (scan digitsRegex t).
Proof.
  intros [Hne Hd] Ht.
  assert (E : digitsRegex (d ++ t) = Some (length d, [])).
  { unfold digitsRegex. rewrite (takeWhile_app is_digit d t Hd Ht).
    destruct d; [contradiction|reflexivity]. }
  rewrite (scan_hit _ digitsRegex_bounds _ _ _ E). cbn [hits].
  rewrite firstn_app, firstn_all, Nat.sub_diag, skipn_app, skipn_all,
    Nat.sub_diag.
  cbn [firstn skipn app]. now rewrite app_nil_r.
Qed.

Lemma hits_tail (items : list (jsstring * jsstring)) :
  Forall written_item items ->
  hits (scan digitsRegex (groupedTail items ++ [RBRACKET])) = map snd items.
Proof.
  induction items as [|item items IH]; intros Hall; [reflexivity|].
  inversion Hall as [|? ? [Hws Hd] Hrest]; subst.
  rewrite groupedTail_cons.
  replace ([COMMA] ++ fst item ++ [CARET] ++ snd item
           ++ groupedTail items ++ [RBRACKET])
    with (([COMMA] ++ fst item ++ [CARET])
          ++ snd item ++ groupedTail items ++ [RBRACKET])
    by (now rewrite <- !app_assoc).
  rewrite hits_other.
  - rewrite hits_number; [|exact Hd|apply groupedTail_stops].
    cbn [map]. now rewrite IH.
  - cbn [app forallb]. change (negb (is_digit COMMA)) with true.
    cbn [andb]. rewrite forallb_app. cbn [forallb].
    change (negb (is_digit CARET)) with true. cbn [andb].
    rewrite andb_true_r.
    rewrite forallb_forall in *. intros c Hc.
    apply negb_true_iff, space_not_digit. now apply Hws.
Qed.

Lemma expandGrouped_written (first : jsstring)
    (items : list (jsstring * jsstring)) :
  is_number_text first -> Forall written_item items ->
  expandGrouped (groupedMarker first items)
  = join (lit ", ") (map marker (first :: map snd items)).
Proof.
  intros Hfirst Hall. unfold expandGrouped, groupedMarker.
  rewrite (hits_other [LBRACKET; CARET]) by reflexivity.
  rewrite hits_number; [|exact Hfirst|].
  - now rewrite hits_tail.
  - destruct items; reflexivity.
Qed.

Lemma processAnswer_plain (a s : jsstring) :
  ~ In LBRACKET a -> processAnswer (a ++ s) = a ++ processAnswer s.
Proof.
  unfold processAnswer, replace.
  induction a as [|c a IH]; intros H; [reflexivity|].
  cbn [app]. rewrite scan_miss.
  - cbn [render]. f_equal. apply IH. intros Hin. apply H. now right.
  - apply groupedFootnoteRegex_other. apply N.eqb_neq. intros ->.
    apply H. now left.
Qed.

(** X22. A grouped footnote, a bracket with two or more numbers, each
    further one after a comma, white space if any and a caret, is rewritten
    into the single markers of its numbers, in order, with a comma and a
    space between them; the text before it, when it has no opening bracket,
    is kept and the rest is processed likewise. *)
Theorem X22_grouped_footnote_expanded (a first rest : jsstring)
    (items : list (jsstring * jsstring)) :
  ~ In LBRACKET a ->
  is_number_text first -> items <> [] -> Forall written_item items ->
  processAnswer (a ++ groupedMarker first items ++ rest)
  = a ++ join (lit ", ") (map marker (first :: map snd items))
      ++ processAnswer rest.
Proof.
  intros Ha Hfirst Hitems Hall.
  rewrite processAnswer_plain by exact Ha. f_equal.
  unfold processAnswer, replace.
  rewrite (scan_hit _ groupedFootnoteRegex_bounds _ _ _
             (groupedFootnoteRegex_written first items rest
                Hfirst Hitems Hall)).
  cbn [render].
  rewrite firstn_app, firstn_all, Nat.sub_diag, skipn_app, skipn_all,
    Nat.sub_diag.
  cbn [firstn skipn app]. rewrite app_nil_r.
  now rewrite expandGrouped_written.
Qed.

Lemma X22_grouped_footnote_expanded_witness :
  ~ In LBRACKET (lit "see ")
  /\ is_number_text (lit "1")
  /\ Forall written_item [(lit " ", lit "2"); ([], lit "13")]
  /\ processAnswer (lit "see [^1, ^2,^13] and [^4,^5]")
     = lit "see [^1], [^2], [^13] and [^4], [^5]".
Proof.
  assert (Ha : ~ In LBRACKET (lit "see ")).
  { cbn. intros H. repeat (destruct H as [H|H]; [discriminate|]). exact H. }
  assert (Hfirst : is_number_text (lit "1")) by (split; [discriminate|reflexivity]).
  assert (Hall : Forall written_item [(lit " ", lit "2"); ([], lit "13")]).
  { repeat constructor; discriminate. }
  split; [exact Ha|]. split; [exact Hfirst|]. split; [exact Hall|].
  assert (Hitems : [(lit " ", lit "2"); ([] : jsstring, lit "13")] <> [])
    by discriminate.
  pose proof (X22_grouped_footnote_expanded (lit "see ") (lit "1")
                (lit " and [^4,^5]") _ Ha Hfirst Hitems Hall) as H.
  exact H.
Defined.

(** X24. [removeHTMLtags] returns a text without [<] as it is, and never
    returns more characters than it was given. *)
Theorem X24_tags_plain_text (text : jsstring) :
  (~ In LT text -> removeHTMLtags text = text)
  /\ length (removeHTMLtags text) <= length text.
Proof.
  rewrite removeHTMLtags_strip. split.
  - intros H. pose proof (stripTags_plain text [] H) as E.
    now rewrite !app_nil_r in E.
  - generalize false as in_tag.
    induction text as [|c s IH]; intros in_tag; [reflexivity|].
    cbn [stripTags]. destruct in_tag.
    + destruct (c =? GT)%N; [specialize (IH false)|specialize (IH true)];
        cbn [length]; lia.
    + destruct (c =? LT)%N; [specialize (IH true)|specialize (IH false)];
        cbn [length]; lia.
Qed.

Lemma X24_tags_plain_text_witness :
  ~ In LT (lit "2 > 1") /\ removeHTMLtags (lit "2 > 1") = lit "2 > 1".
Proof.
  assert (H : ~ In LT (lit "2 > 1")).
  { cbn. intros H. repeat (destruct H as [H|H]; [discriminate|]). exact H. }
  split; [exact H|].
  exact (proj1 (X24_tags_plain_text (lit "2 > 1")) H).
Defined.

(** ** The lookups on sample data files *)



Lemma X23_clean_quote_characters_witness :
  In 72%N (cleanQuote no_unicode no_unicode (lit "Hello, world!!"))
  /\ (72 < 128)%N
  /\ (72%N = SPACE \/ ascii_alnum 72%N = true).
Proof.
  assert (Hin : In 72%N (cleanQuote no_unicode no_unicode
                           (lit "Hello, world!!"))) by (now left).
  assert (Hlt : (72 < 128)%N) by reflexivity.
  split; [exact Hin|]. split; [exact Hlt|].
  exact (proj1 (X23_clean_quote_characters no_unicode no_unicode
                  (lit "Hello, world!!")) 72%N Hin Hlt).
Defined.
